(** * Snake: a shallow embedding of snake.c and the properties of its game engine

    The C program keeps the whole session in global variables and updates
    them from [init_game], [place_fruit], [step_snake] and
    [change_direction]; [main] drives them from the keyboard.  Here the
    globals are one record, [State], threaded through the functions, and the
    fixed array [Point snake[MAX_SNAKE]] is a list of [MAX_SNAKE] points that
    is read and written by index.  An access outside [0, MAX_SNAKE) is
    undefined behaviour in C; the model turns it into the result
    [OutOfBounds], so that "no access leaves the buffer" is a statement about
    results.

    C [int] values are modelled by [Z].  The [int]s the engine stores stay
    below 6000 or within the grid (see [engine_ints_bounded]); the one
    product that can overflow is the [w * h] of [main]'s test (see
    [accepted]).  [rand()] is a stream [nat -> N] of which the state
    remembers the position; [%] and [/] on [int] are [Z.rem] and [Z.quot]. *)

From Stdlib Require Import ZArith NArith Lia Ascii String DecimalString.
From stdpp Require Import base tactics option list.

Local Open Scope Z_scope.

(** ** Configuration constants (the [#define]s) *)

Definition DEFAULT_WIDTH : Z := 30.
Definition DEFAULT_HEIGHT : Z := 20.
Definition MAX_SNAKE : Z := DEFAULT_WIDTH * DEFAULT_HEIGHT.
Definition STARTING_LENGTH : Z := 4.
Definition INITIAL_DELAY_MS : Z := 200.
Definition MIN_DELAY_MS : Z := 50.

(** The retry bound written as a literal in [place_fruit]. *)
Definition MAX_TRIES : Z := 10000.

(** ** Data *)

Inductive Direction : Type := UP | DOWN | LEFT | RIGHT.

Record Point : Type := mkPoint { px : Z; py : Z }.

#[global] Instance Direction_eq_dec : EqDecision Direction.
Proof. solve_decision. Defined.

#[global] Instance Point_eq_dec : EqDecision Point.
Proof. solve_decision. Defined.

(** The global variables of the program, plus the position in the
    [rand()] stream. *)
Record State : Type := mkState {
  width : Z;
  height : Z;
  snake : list Point;
  snake_len : Z;
  dir : Direction;
  fruit : Point;
  score : Z;
  delay_ms : Z;
  level : Z;
  game_over : Z;
  rand_next : nat
}.

Definition set_snake (b : list Point) (s : State) : State :=
  mkState (width s) (height s) b (snake_len s) (dir s) (fruit s) (score s)
          (delay_ms s) (level s) (game_over s) (rand_next s).
Definition set_snake_len (n : Z) (s : State) : State :=
  mkState (width s) (height s) (snake s) n (dir s) (fruit s) (score s)
          (delay_ms s) (level s) (game_over s) (rand_next s).
Definition set_dir (d : Direction) (s : State) : State :=
  mkState (width s) (height s) (snake s) (snake_len s) d (fruit s) (score s)
          (delay_ms s) (level s) (game_over s) (rand_next s).
Definition set_fruit (p : Point) (s : State) : State :=
  mkState (width s) (height s) (snake s) (snake_len s) (dir s) p (score s)
          (delay_ms s) (level s) (game_over s) (rand_next s).
Definition set_score (n : Z) (s : State) : State :=
  mkState (width s) (height s) (snake s) (snake_len s) (dir s) (fruit s) n
          (delay_ms s) (level s) (game_over s) (rand_next s).
Definition set_delay_ms (n : Z) (s : State) : State :=
  mkState (width s) (height s) (snake s) (snake_len s) (dir s) (fruit s)
          (score s) n (level s) (game_over s) (rand_next s).
Definition set_level (n : Z) (s : State) : State :=
  mkState (width s) (height s) (snake s) (snake_len s) (dir s) (fruit s)
          (score s) (delay_ms s) n (game_over s) (rand_next s).
Definition set_game_over (n : Z) (s : State) : State :=
  mkState (width s) (height s) (snake s) (snake_len s) (dir s) (fruit s)
          (score s) (delay_ms s) (level s) n (rand_next s).
Definition set_rand_next (n : nat) (s : State) : State :=
  mkState (width s) (height s) (snake s) (snake_len s) (dir s) (fruit s)
          (score s) (delay_ms s) (level s) (game_over s) n.
Definition set_size (w h : Z) (s : State) : State :=
  mkState w h (snake s) (snake_len s) (dir s) (fruit s)
          (score s) (delay_ms s) (level s) (game_over s) (rand_next s).

(** ** Results of the engine's functions *)

Inductive result (A : Type) : Type :=
| Ok (a : A)
| OutOfBounds
| OutOfFuel.
Arguments Ok {A} a.
Arguments OutOfBounds {A}.
Arguments OutOfFuel {A}.

Definition bind {A B : Type} (m : result A) (k : A -> result B) : result B :=
  match m with
  | Ok a => k a
  | OutOfBounds => OutOfBounds
  | OutOfFuel => OutOfFuel
  end.

Notation "'do' x <- m ; k" := (bind m (fun x => k))
  (at level 10, x name, m at level 100, k at level 200).

(** ** The snake buffer: [Point snake[MAX_SNAKE]] *)

Definition in_buffer (i : Z) : bool := (0 <=? i) && (i <? MAX_SNAKE).

(** [snake[i]] as an rvalue. *)
Definition rd (buf : list Point) (i : Z) : result Point :=
  if in_buffer i then
    match buf !! Z.to_nat i with
    | Some p => Ok p
    | None => OutOfBounds
    end
  else OutOfBounds.

(** [snake[i] = p]. *)
Definition wr (buf : list Point) (i : Z) (p : Point) : result (list Point) :=
  if in_buffer i then Ok (<[Z.to_nat i := p]> buf) else OutOfBounds.

(** The segments the game regards as the snake: [snake[0 .. snake_len-1]],
    head first. *)
Definition segments (s : State) : list Point :=
  take (Z.to_nat (snake_len s)) (snake s).

(** ** Helpers *)

Definition point_equal (a b : Point) : bool :=
  (px a =? px b) && (py a =? py b).

(** [for (int i = i0; i < i0 + n; ++i) if (test(snake[i])) { hit; break; }]:
    the scan shared by [place_fruit] and the self-collision check of
    [step_snake]. *)
Fixpoint scan (test : Point -> bool) (buf : list Point) (n : nat) (i : Z)
  : result bool :=
  match n with
  | O => Ok false
  | S n' =>
      do q <- rd buf i;
      if test q then Ok true else scan test buf n' (i + 1)
  end.

Section Engine.

(** The values [rand()] returns, in order, for the seed [srand] chose. *)
Variable rnd : nat -> N.

Definition rand (s : State) : Z * State :=
  (Z.of_N (rnd (rand_next s)), set_rand_next (S (rand_next s)) s).

(** One round of the [while (1)] loop of [place_fruit], then the rest.
    [fuel] bounds the number of rounds of the model; [place_fruit] gives
    enough.  [Z.rem] stands for [%] as long as [width] and [height] are
    positive, which the statements about placement assume. *)
Fixpoint place_fruit_loop (fuel : nat) (tries : Z) (s : State) : result State :=
  match fuel with
  | O => OutOfFuel
  | S fuel' =>
      let (r1, s) := rand s in
      let s := set_fruit (mkPoint (Z.rem r1 (width s)) (py (fruit s))) s in
      let (r2, s) := rand s in
      let s := set_fruit (mkPoint (px (fruit s)) (Z.rem r2 (height s))) s in
      do coll <- scan (fun q => point_equal q (fruit s)) (snake s)
                      (Z.to_nat (snake_len s)) 0;
      if negb coll then Ok s
      else
        let tries := tries + 1 in
        if MAX_TRIES <? tries then Ok s
        else place_fruit_loop fuel' tries s
  end.

Definition place_fruit (s : State) : result State :=
  place_fruit_loop (Z.to_nat (MAX_TRIES + 1)) 0 s.

(** [for (int i = i0; i < i0 + n; ++i) { snake[i].x = cx - i; snake[i].y = cy; }] *)
Fixpoint lay_snake (cx cy : Z) (n : nat) (i : Z) (buf : list Point)
  : result (list Point) :=
  match n with
  | O => Ok buf
  | S n' =>
      do buf <- wr buf i (mkPoint (cx - i) cy);
      lay_snake cx cy n' (i + 1) buf
  end.

Definition init_game (s : State) : result State :=
  let s := set_score 0 s in
  let s := set_level 1 s in
  let s := set_delay_ms INITIAL_DELAY_MS s in
  let s := set_snake_len STARTING_LENGTH s in
  let cx := Z.quot (width s) 2 in
  let cy := Z.quot (height s) 2 in
  do buf <- lay_snake cx cy (Z.to_nat (snake_len s)) 0 (snake s);
  let s := set_snake buf s in
  let s := set_dir RIGHT s in
  do s <- place_fruit s;
  Ok (set_game_over 0 s).

(** The cell in front of the head: [new_head] after the [switch (dir)]. *)
Definition advance (d : Direction) (p : Point) : Point :=
  match d with
  | UP => mkPoint (px p) (py p - 1)
  | DOWN => mkPoint (px p) (py p + 1)
  | LEFT => mkPoint (px p - 1) (py p)
  | RIGHT => mkPoint (px p + 1) (py p)
  end.

(** The wall test of [step_snake]. *)
Definition hits_wall (s : State) (p : Point) : bool :=
  (px p <? 0) || (width s <=? px p) || (py p <? 0) || (height s <=? py p).

(** [for (int i = i0; i > i0 - n; --i) snake[i] = snake[i-1];] *)
Fixpoint shift_body (n : nat) (i : Z) (buf : list Point) : result (list Point) :=
  match n with
  | O => Ok buf
  | S n' =>
      do q <- rd buf (i - 1);
      do buf <- wr buf i q;
      shift_body n' (i - 1) buf
  end.

(** The speed-up of [step_snake], after a fruit was eaten. *)
Definition speed_up (s : State) : State :=
  if (Z.rem (snake_len s) 3 =? 0) && (MIN_DELAY_MS <? delay_ms s)
  then set_level (level s + 1) (set_delay_ms (delay_ms s - 10) s)
  else s.

(** [step_snake]: the returned [int] (0: game over, 1: go on) and the
    globals afterwards. *)
Definition step_snake (s : State) : result (Z * State) :=
  do h <- rd (snake s) 0;
  let new_head := advance (dir s) h in
  if hits_wall s new_head then Ok (0, s)
  else
    do hit <- scan (point_equal new_head) (snake s) (Z.to_nat (snake_len s)) 0;
    if hit then Ok (0, s)
    else
      do buf <- shift_body (Z.to_nat (snake_len s)) (snake_len s) (snake s);
      do buf <- wr buf 0 new_head;
      let s := set_snake buf s in
      if point_equal new_head (fruit s) then
        let s := set_snake_len (snake_len s + 1) s in
        let s := set_score (score s + 10) s in
        do s <- place_fruit s;
        let s := speed_up s in
        if MAX_SNAKE - 1 <=? snake_len s then Ok (0, s) else Ok (1, s)
      else Ok (1, s).

End Engine.

Definition is_reverse (d newd : Direction) : bool :=
  match d, newd with
  | UP, DOWN | DOWN, UP | LEFT, RIGHT | RIGHT, LEFT => true
  | _, _ => false
  end.

Definition change_direction (newd : Direction) (s : State) : State :=
  if is_reverse (dir s) newd then s else set_dir newd s.

(** ** The driver: [poll_input] (POSIX branch) and the loop of [main] *)

Definition chr (c : ascii) : Z := Z.of_N (N_of_ascii c).

Definition tolower (c : Z) : Z :=
  if (chr "A" <=? c) && (c <=? chr "Z") then c + 32 else c.

(** [key] is the byte [getch_nonblock] reads, [None] when no key is
    pending.  The returned [int] is 0, 1, ['q'] or ['p']. *)
Definition poll_input (key : option Z) (s : State) : Z * State :=
  match key with
  | None => (0, s)
  | Some c =>
      let c := tolower c in
      if c =? chr "w" then (1, change_direction UP s)
      else if c =? chr "s" then (1, change_direction DOWN s)
      else if c =? chr "a" then (1, change_direction LEFT s)
      else if c =? chr "d" then (1, change_direction RIGHT s)
      else if c =? chr "q" then (chr "q", s)
      else if c =? chr "p" then (chr "p", s)
      else (1, s)
  end.

(** What the loop of [main] does with the value of [step_snake]. *)
Definition after_step (alive : Z) (s : State) : State :=
  if alive =? 0 then set_game_over 1 s else s.

(** The [while (!game_over)] loop of [main], one element of [keys] per call
    of [poll_input]; [paused] tells whether control is inside the inner
    pause loop.  Drawing and sleeping do not touch the state and are left
    out.  The run stops when the keys are used up. *)
Fixpoint main_loop (rnd : nat -> N) (keys : list (option Z)) (paused : bool)
    (s : State) : result State :=
  match keys with
  | [] => Ok s
  | key :: keys' =>
      if negb (game_over s =? 0) then Ok s
      else
        let (input, s) := poll_input key s in
        if paused && negb (input =? chr "p") then main_loop rnd keys' true s
        else if negb paused && (input =? chr "q") then Ok s
        else if negb paused && (input =? chr "p") then main_loop rnd keys' true s
        else
          do r <- step_snake rnd s;
          let s := after_step (fst r) (snd r) in
          if fst r =? 0 then Ok s else main_loop rnd keys' false s
  end.

(** The globals as the program starts: zero-initialised but for [width]
    and [height]. *)
Definition globals : State :=
  mkState DEFAULT_WIDTH DEFAULT_HEIGHT
          (replicate (Z.to_nat MAX_SNAKE) (mkPoint 0 0)) 0 UP (mkPoint 0 0)
          0 0 0 0 0.

(** The test [main] applies to the two command-line numbers.  [w * h] is
    the product in [Z]: the model stands for the C test as long as the
    product fits an [int] (beyond that the C expression overflows). *)
Definition accepted (w h : Z) : bool :=
  (10 <=? w) && (5 <=? h) && (w * h <=? 10000).

Definition configure (args : option (Z * Z)) (s : State) : State :=
  match args with
  | Some (w, h) => if accepted w h then set_size w h s else s
  | None => s
  end.

Definition main (rnd : nat -> N) (args : option (Z * Z))
    (keys : list (option Z)) : result State :=
  do s <- init_game rnd (configure args globals);
  main_loop rnd keys false s.

(** ** Drawing: [draw], with the POSIX [CLEAR_SCREEN]

    What [putchar] and [printf] write, in order, as a list of characters. *)

Definition text (s : string) : list ascii := list_ascii_of_string s.
Definition newline : ascii := ascii_of_nat 10.
Definition escape : ascii := ascii_of_nat 27.

(** [printf("%d", n)] *)
Definition decimal (n : Z) : list ascii :=
  list_ascii_of_string (NilZero.string_of_int (Z.to_int n)).

(** The body of the loop over [x]: the character of the cell [(x, y)]. *)
Definition draw_cell (s : State) (x y : Z) : result ascii :=
  let p := mkPoint x y in
  do h <- rd (snake s) 0;
  if point_equal p h then Ok "O"%char
  else if point_equal p (fruit s) then Ok "F"%char
  else
    do hit <- scan (point_equal p) (snake s) (Z.to_nat (snake_len s - 1)) 1;
    Ok (if hit then "o"%char else " "%char).

(** [for (int x = x0; x < x0 + n; ++x) { ...; putchar(ch); }] *)
Fixpoint draw_cells (s : State) (y : Z) (n : nat) (x : Z) : result (list ascii) :=
  match n with
  | O => Ok []
  | S n' =>
      do ch <- draw_cell s x y;
      do rest <- draw_cells s y n' (x + 1);
      Ok (ch :: rest)
  end.

(** [for (int y = y0; y < y0 + n; ++y) { putchar('#'); ...; putchar('#');
    putchar('\n'); }] *)
Fixpoint draw_rows (s : State) (n : nat) (y : Z) : result (list ascii) :=
  match n with
  | O => Ok []
  | S n' =>
      do cells <- draw_cells s y (Z.to_nat (width s)) 0;
      do rest <- draw_rows s n' (y + 1);
      Ok ("#"%char :: cells ++ "#"%char :: newline :: rest)
  end.

(** The top and the bottom border. *)
Definition border (s : State) : list ascii :=
  replicate (Z.to_nat (width s + 2)) "#"%char ++ [newline].

Definition status_line (s : State) : list ascii :=
  text "Score: " ++ decimal (score s) ++ text "   Length: "
  ++ decimal (snake_len s) ++ text "   Level: " ++ decimal (level s)
  ++ text "   Delay: " ++ decimal (delay_ms s) ++ text " ms" ++ [newline].

Definition draw (s : State) : result (list ascii) :=
  do rows <- draw_rows s (Z.to_nat (height s)) 0;
  Ok (escape :: text "[2J" ++ escape :: text "[H"
      ++ border s ++ rows ++ border s ++ status_line s
      ++ text "Controls: W/A/S/D to move | p = pause | q = quit" ++ [newline]).

(** ** Reachable states

    The states the engine goes through in a session on a [w] x [h] grid:
    the state [init_game] leaves, then any interleaving of
    [change_direction] and [step_snake] while the game is not over. *)
Inductive reachable (rnd : nat -> N) (w h : Z) : State -> Prop :=
| reach_init s :
    init_game rnd (set_size w h globals) = Ok s ->
    reachable rnd w h s
| reach_turn s d :
    reachable rnd w h s ->
    game_over s = 0 ->
    reachable rnd w h (change_direction d s)
| reach_step s alive s' :
    reachable rnd w h s ->
    game_over s = 0 ->
    step_snake rnd s = Ok (alive, s') ->
    reachable rnd w h (after_step alive s').

(** * Definitions used by the statements *)

(** The buffer has its declared size and [snake_len] does not point
    beyond it. *)
Definition buffer_ok (s : State) : Prop :=
  length (snake s) = Z.to_nat MAX_SNAKE /\ 0 <= snake_len s <= MAX_SNAKE.

(** The cell drawn in round [k] (from 0) of a placement that starts in
    state [s]. *)
Definition sample (rnd : nat -> N) (s : State) (k : nat) : Point :=
  mkPoint (Z.rem (Z.of_N (rnd (rand_next s + 2 * k)%nat)) (width s))
          (Z.rem (Z.of_N (rnd (rand_next s + 2 * k + 1)%nat)) (height s)).

(** The state a placement leaves when it returns in round [k]. *)
Definition placed (rnd : nat -> N) (s : State) (k : nat) : State :=
  set_fruit (sample rnd s k) (set_rand_next (rand_next s + 2 * (k + 1))%nat s).

(** [snake[0]], and the cell [step_snake] computes as [new_head]. *)
Definition head_of (s : State) : Point := List.hd (mkPoint 0 0) (snake s).
Definition new_head (s : State) : Point := advance (dir s) (head_of s).

(** The globals after the "Move body" part of [step_snake]. *)
Definition moved (s : State) : State :=
  set_snake (new_head s :: take (Z.to_nat (snake_len s)) (snake s)
                        ++ drop (S (Z.to_nat (snake_len s))) (snake s)) s.

(** The globals when the fruit has been eaten and [place_fruit] is about to
    be called. *)
Definition grown (s : State) : State :=
  set_score (score s + 10) (set_snake_len (snake_len s + 1) (moved s)).

(** What [step_snake] returns once the new fruit is placed. *)
Definition finish_eating (s : State) : Z * State :=
  let s := speed_up s in
  if MAX_SNAKE - 1 <=? snake_len s then (0, s) else (1, s).

Definition in_grid (w h : Z) (p : Point) : Prop :=
  0 <= px p < w /\ 0 <= py p < h.

Record inv (w h : Z) (s : State) : Prop := mkInv {
  inv_width : width s = w;
  inv_height : height s = h;
  inv_buffer : length (snake s) = Z.to_nat MAX_SNAKE;
  inv_len_min : STARTING_LENGTH <= snake_len s;
  inv_len_max : snake_len s <= MAX_SNAKE - 1;
  inv_len_alive : game_over s = 0 -> snake_len s <= MAX_SNAKE - 2;
  inv_flag : game_over s = 0 \/ game_over s = 1;
  inv_distinct : NoDup (segments s);
  inv_in_grid : Forall (in_grid w h) (segments s);
  inv_fruit : in_grid w h (fruit s);
  inv_score : score s = 10 * (snake_len s - STARTING_LENGTH);
  inv_delay : MIN_DELAY_MS <= delay_ms s <= INITIAL_DELAY_MS;
  inv_level : delay_ms s = INITIAL_DELAY_MS - 10 * (level s - 1)
}.

(** The grid [main] plays on for the given command-line numbers. *)
Definition grid_width (args : option (Z * Z)) : Z := width (configure args globals).
Definition grid_height (args : option (Z * Z)) : Z := height (configure args globals).

(** The state a run ends in ([globals] stands in for a failed run; the runs
    below do not fail). *)
Definition state_of (r : result State) : State :=
  match r with
  | Ok s => s
  | _ => globals
  end.

(** A [rand()] stream that starts with the given values. *)
Definition stream_of (l : list N) (rest : nat -> N) (n : nat) : N :=
  match l !! n with
  | Some v => v
  | None => rest n
  end.

(** The key that asks for a direction. *)
Definition key_of (d : Direction) : option Z :=
  Some (chr match d with
            | UP => "w" | DOWN => "s" | LEFT => "a" | RIGHT => "d"
            end%char).

(** The cells a head visits from [p] along the directions [ds], and the
    [rand()] values that put the fruit on each of them in turn. *)
Fixpoint cells_of (p : Point) (ds : list Direction) : list Point :=
  match ds with
  | [] => []
  | d :: ds' => let q := advance d p in q :: cells_of q ds'
  end.

Definition coords (ps : list Point) : list N :=
  flat_map (fun p => [Z.to_N (px p); Z.to_N (py p)]) ps.

(** Default grid: the fruit is three times straight ahead of the head. *)
Definition rnd_line : nat -> N :=
  stream_of [16; 10; 17; 10; 18; 10]%N (fun _ => 0%N).

(** Grid 10 x 5: a tour from the initial head (5,2) through all 46 free
    cells, the fruit always on the next cell; afterwards [rand()] keeps
    returning 9, the cell (9,4) where the tour ends. *)
Definition tour_10x5 : list Direction :=
  [RIGHT; RIGHT; RIGHT; RIGHT;
   UP; UP; LEFT; DOWN; LEFT; UP; LEFT; DOWN; LEFT; UP; LEFT; DOWN; LEFT; UP;
   LEFT; DOWN; LEFT; UP; LEFT; DOWN;
   DOWN; RIGHT;
   DOWN; LEFT; DOWN; RIGHT; RIGHT; UP; RIGHT; DOWN; RIGHT; UP; RIGHT; DOWN;
   RIGHT; UP; RIGHT; DOWN; RIGHT; UP; RIGHT; DOWN].

Definition rnd_tour : nat -> N :=
  stream_of (coords (cells_of (mkPoint 5 2) tour_10x5)) (fun _ => 9%N).

(** Default grid: a tour from the initial head (15,10) through all 596
    free cells, the fruit always on the next cell.  To the right wall; the
    rows below, column by column, to the left wall; row 10 and row 9 up to
    the snake's column; the nine rows above, column by column and then two
    columns at a time, to the top of column 11; the columns to the right of
    it, top to bottom and back.  [column turn along n] is one step [turn]
    and [n] steps [along]. *)
Definition column (turn along : Direction) (n : nat) : list Direction :=
  turn :: replicate n along.

Definition tour_30x20 : list Direction :=
  replicate 14 RIGHT
  ++ column DOWN DOWN 8
  ++ concat (replicate 14 (column LEFT UP 8 ++ column LEFT DOWN 8))
  ++ column LEFT UP 8
  ++ column UP RIGHT 11
  ++ column UP LEFT 11
  ++ column UP UP 8
  ++ concat (replicate 4 (column RIGHT DOWN 8 ++ column RIGHT UP 8))
  ++ column RIGHT DOWN 8
  ++ [RIGHT; RIGHT]
  ++ concat (replicate 4 [UP; LEFT; UP; RIGHT])
  ++ column RIGHT DOWN 9
  ++ concat (replicate 8 (column RIGHT UP 9 ++ column RIGHT DOWN 9))
  ++ column RIGHT UP 9.

Definition rnd_board : nat -> N :=
  stream_of (coords (cells_of (mkPoint 15 10) tour_30x20)) (fun _ => 0%N).

(** The default session: the first 594 keys of the tour. *)
Definition board_keys : list (option Z) := map key_of (take 594 tour_30x20).

(** Grid 100 x 100: from the initial head (50,50) to the right wall, one
    row down, back to the left wall, and so on. *)
Fixpoint sweep (n : nat) (w : Z) (p : Point) (d : Direction) : list Direction :=
  match n with
  | O => []
  | S n' =>
      let q := advance d p in
      if (0 <=? px q) && (px q <? w) then d :: sweep n' w q d
      else DOWN :: sweep n' w (advance DOWN p)
                         match d with RIGHT => LEFT | _ => RIGHT end
  end.

Definition tour_100 (n : nat) : list Direction := sweep n 100 (mkPoint 50 50) RIGHT.

Definition rnd_sweep : nat -> N :=
  stream_of (coords (cells_of (mkPoint 50 50) (tour_100 600))) (fun _ => 0%N).

(** The reverse of a direction, as the specification words it. *)
Definition opposite (d : Direction) : Direction :=
  match d with
  | UP => DOWN
  | DOWN => UP
  | LEFT => RIGHT
  | RIGHT => LEFT
  end.

(** The new head runs into a wall or into the snake. *)
Definition collides (s : State) : Prop :=
  hits_wall s (new_head s) = true \/ new_head s ∈ segments s.

Definition is_ok {A : Type} (r : result A) : bool :=
  match r with
  | Ok _ => true
  | _ => false
  end.

(** The state [init_game] leaves on the default grid, with the fruit in
    the corner and with the fruit right in front of the head. *)
Definition rnd_zero : nat -> N := fun _ => 0%N.
Definition start_corner : State := state_of (init_game rnd_zero globals).
Definition start_line : State := state_of (init_game rnd_line globals).

(** The default session after [n] ticks without a key, the fruit ahead. *)
Definition line_run (n : nat) : State :=
  state_of (main rnd_line None (replicate n None)).

(** The 10 x 5 session after the first [n] keys of the tour. *)
Definition tour_run (n : nat) : State :=
  state_of (main rnd_tour (Some (10, 5)) (map key_of (take n tour_10x5))).

(** A run that ends, still running, in a state from which the next step
    eats the fruit and stops the game: the test, and what it establishes. *)
Definition stops_on_fruit (rnd : nat -> N) (args : option (Z * Z))
    (keys : list (option Z)) (len : Z) : bool :=
  let r := main rnd args keys in
  let s := state_of r in
  is_ok r && (game_over s =? 0) && (snake_len s =? len)
  && negb (hits_wall s (new_head s))
  && negb (existsb (point_equal (new_head s)) (segments s))
  && point_equal (new_head s) (fruit s)
  && (match step_snake rnd s with
      | Ok (alive, s') => (alive =? 0) && (snake_len s' =? len + 1)
      | _ => false
      end).

(** The 100 x 100 session: 594 ticks of the sweep, a fruit eaten in each. *)
Definition sweep_keys : list (option Z) := map key_of (tour_100 594).

(** The 10 x 5 session that starts with [rand()] stuck at 2. *)
Definition rnd_two : nat -> N := fun _ => 2%N.
Definition start_small : State :=
  state_of (init_game rnd_two (set_size 10 5 globals)).

(** C7 as worded: after the fruit is eaten the snake is one longer, the
    score ten higher, and the cell of the old tail is held by the segment
    that was second to last, the one at index [snake_len - 2]. *)
Definition grows_as_claimed (rnd : nat -> N) (s : State) : Prop :=
  exists alive s',
    step_snake rnd s = Ok (alive, s') /\
    snake_len s' = snake_len s + 1 /\
    score s' = score s + 10 /\
    segments s' !! (Z.to_nat (snake_len s) - 2)%nat = last (segments s).

(** The keys that [poll_input] reports as the pause key. *)
Definition is_pause (key : option Z) : bool :=
  match key with
  | Some c => tolower c =? chr "p"
  | None => false
  end.

(** The state after the calls of [poll_input] for [keys], none of which
    steps the snake. *)
Definition polled (keys : list (option Z)) (s : State) : State :=
  foldl (fun s key => snd (poll_input key s)) s keys.

(** The cell number of a point of a grid [w] wide, row by row. *)
Definition cell_index (w : Z) (p : Point) : nat := Z.to_nat (py p * w + px p).

(** The product [main] computes for the command-line numbers fits an
    [int] (it is computed only when [w >= 10 && h >= 5] holds). *)
Definition fits_int (args : option (Z * Z)) : Prop :=
  match args with
  | Some (w, h) => 10 <= w -> 5 <= h -> w * h <= 2147483647
  | None => True
  end.

(** The character [draw] shows for a cell: the head, else the fruit, else
    a segment behind the head, else nothing. *)
Definition cell_char (s : State) (p : Point) : ascii :=
  if decide (p = head_of s) then "O"%char
  else if decide (p = fruit s) then "F"%char
  else if decide (p ∈ drop 1 (segments s)) then "o"%char
  else " "%char.

(** * Properties *)

(** ** Points and the buffer primitives *)

Lemma point_equal_true (a b : Point) : point_equal a b = true <-> a = b.
Proof.
  unfold point_equal. destruct a as [ax ay], b as [bx by']. simpl.
  rewrite andb_true_iff, !Z.eqb_eq. split.
  - intros [-> ->]. reflexivity.
  - intros [= -> ->]. auto.
Qed.

Lemma point_equal_sym (a b : Point) : point_equal a b = point_equal b a.
Proof. unfold point_equal. rewrite (Z.eqb_sym (px a)), (Z.eqb_sym (py a)). reflexivity. Qed.

Lemma existsb_decide (test : Point -> bool) (p : Point) (l : list Point) :
  (forall q, test q = true <-> p = q) ->
  existsb test l = bool_decide (p ∈ l).
Proof.
  intros Htest. induction l as [|q l IH]; cbn [existsb].
  - symmetry. apply bool_decide_eq_false_2, not_elem_of_nil.
  - rewrite IH. destruct (test q) eqn:E; cbn [orb].
    + apply Htest in E. subst q. symmetry. apply bool_decide_eq_true_2. left.
    + apply bool_decide_ext. rewrite elem_of_cons. split; [auto|].
      intros [->|H]; [|exact H].
      assert (test q = true) by (apply Htest; reflexivity). congruence.
Qed.

Lemma existsb_point_equal (p : Point) (l : list Point) :
  existsb (point_equal p) l = bool_decide (p ∈ l).
Proof. apply existsb_decide. intros q. apply point_equal_true. Qed.

Lemma existsb_point_equal_r (p : Point) (l : list Point) :
  existsb (fun q => point_equal q p) l = bool_decide (p ∈ l).
Proof.
  apply existsb_decide. intros q. rewrite point_equal_true. split; congruence.
Qed.

Lemma in_buffer_true (i : Z) : in_buffer i = true <-> 0 <= i < MAX_SNAKE.
Proof. unfold in_buffer. rewrite andb_true_iff, Z.leb_le, Z.ltb_lt. tauto. Qed.

(** A read or write that succeeds used an index below the capacity. *)
Lemma rd_Ok_inv (buf : list Point) (i : Z) (p : Point) :
  rd buf i = Ok p -> 0 <= i < MAX_SNAKE /\ buf !! Z.to_nat i = Some p.
Proof.
  unfold rd. destruct (in_buffer i) eqn:Hi; [|discriminate].
  apply in_buffer_true in Hi. destruct (buf !! Z.to_nat i); [|discriminate].
  intros [= ->]. auto.
Qed.

Lemma wr_Ok_inv (buf : list Point) (i : Z) (p : Point) (buf' : list Point) :
  wr buf i p = Ok buf' -> 0 <= i < MAX_SNAKE /\ buf' = <[Z.to_nat i := p]> buf.
Proof.
  unfold wr. destruct (in_buffer i) eqn:Hi; [|discriminate].
  apply in_buffer_true in Hi. intros [= <-]. auto.
Qed.

(** An index at or beyond the capacity, or a negative one, is an error. *)
Lemma rd_out_of_range (buf : list Point) (i : Z) :
  ~ (0 <= i < MAX_SNAKE) -> rd buf i = OutOfBounds.
Proof.
  intros Hi. unfold rd. destruct (in_buffer i) eqn:E; [|reflexivity].
  apply in_buffer_true in E. contradiction.
Qed.

Lemma wr_out_of_range (buf : list Point) (i : Z) (p : Point) :
  ~ (0 <= i < MAX_SNAKE) -> wr buf i p = OutOfBounds.
Proof.
  intros Hi. unfold wr. destruct (in_buffer i) eqn:E; [|reflexivity].
  apply in_buffer_true in E. contradiction.
Qed.

Section Buffer.

Variable buf : list Point.
Hypothesis buf_full : length buf = Z.to_nat MAX_SNAKE.

Lemma rd_in_range (i : nat) :
  Z.of_nat i < MAX_SNAKE ->
  exists p, buf !! i = Some p /\ rd buf (Z.of_nat i) = Ok p.
Proof.
  intros Hi. destruct (lookup_lt_is_Some_2 buf i) as [p Hp]; [lia|].
  exists p. split; [exact Hp|]. unfold rd.
  replace (in_buffer (Z.of_nat i)) with true
    by (symmetry; apply in_buffer_true; lia).
  rewrite Nat2Z.id, Hp. reflexivity.
Qed.

Lemma wr_in_range (i : nat) (p : Point) :
  Z.of_nat i < MAX_SNAKE ->
  wr buf (Z.of_nat i) p = Ok (<[i := p]> buf).
Proof.
  intros Hi. unfold wr.
  replace (in_buffer (Z.of_nat i)) with true
    by (symmetry; apply in_buffer_true; lia).
  rewrite Nat2Z.id. reflexivity.
Qed.

(** The scan answers whether some of [snake[i .. i+n-1]] passes the test. *)
Lemma scan_spec (test : Point -> bool) (n i : nat) :
  Z.of_nat (i + n) <= MAX_SNAKE ->
  scan test buf n (Z.of_nat i) = Ok (existsb test (take n (drop i buf))).
Proof.
  revert i. induction n as [|n IH]; intros i Hn; simpl.
  - reflexivity.
  - destruct (rd_in_range i) as (p & Hp & ->); [lia|]. simpl.
    rewrite (drop_S _ _ _ Hp). simpl.
    destruct (test p); [reflexivity|].
    replace (Z.of_nat i + 1) with (Z.of_nat (S i)) by lia.
    apply IH. lia.
Qed.

End Buffer.

(** The shift loop moves [snake[0 .. n-1]] up by one slot and leaves
    [snake[0]] and everything above [snake[n]] as they were. *)
Lemma shift_body_spec (n : nat) (buf : list Point) :
  length buf = Z.to_nat MAX_SNAKE ->
  Z.of_nat n < MAX_SNAKE ->
  shift_body n (Z.of_nat n) buf
  = Ok (take 1 buf ++ take n buf ++ drop (S n) buf).
Proof.
  revert buf. induction n as [|n IH]; intros buf Hlen Hn.
  - simpl. destruct buf; reflexivity.
  - cbn [shift_body].
    replace (Z.of_nat (S n) - 1) with (Z.of_nat n) by lia.
    destruct (rd_in_range buf Hlen n) as (q & Hq & ->); [lia|]. simpl.
    rewrite (wr_in_range buf Hlen (S n) q Hn). simpl.
    rewrite IH; [|rewrite length_insert; exact Hlen|lia].
    f_equal.
    rewrite !take_insert_ge by lia.
    rewrite (take_S_r _ _ _ Hq), <- !app_assoc. do 2 f_equal. simpl.
    rewrite (drop_S (<[S n := q]> buf) q (S n))
      by (apply list_lookup_insert_eq; lia).
    rewrite drop_insert_lt by lia. reflexivity.
Qed.

(** ** Fruit placement *)

Section Placement.

Variable rnd : nat -> N.

Lemma segments_placed (s : State) (k : nat) : segments (placed rnd s k) = segments s.
Proof. reflexivity. Qed.

Lemma sample_placed (s : State) (k j : nat) :
  sample rnd (placed rnd s k) j = sample rnd s (S k + j).
Proof.
  unfold sample, placed. simpl.
  f_equal; do 3 f_equal; lia.
Qed.

Lemma placed_placed (s : State) (k j : nat) :
  placed rnd (placed rnd s k) j = placed rnd s (S k + j).
Proof.
  pose proof (sample_placed s k j) as Hsample.
  unfold placed at 1 3. rewrite Hsample.
  unfold placed, set_fruit, set_rand_next. simpl.
  f_equal. lia.
Qed.

Lemma scan_fruit (s : State) (f : Point) :
  buffer_ok s ->
  scan (fun q => point_equal q f) (snake s) (Z.to_nat (snake_len s)) 0
  = Ok (bool_decide (f ∈ segments s)).
Proof.
  intros [Hlen Hn].
  rewrite (scan_spec (snake s) Hlen _ _ 0%nat) by lia.
  f_equal. unfold segments. rewrite drop_0. apply existsb_point_equal_r.
Qed.

(** One round of the loop, as a step from [s] to [placed rnd s 0]. *)
Lemma place_fruit_loop_round (fuel : nat) (tries : Z) (s : State) :
  buffer_ok s ->
  place_fruit_loop rnd (S fuel) tries s
  = if bool_decide (sample rnd s 0 ∈ segments s) then
      if MAX_TRIES <? tries + 1 then Ok (placed rnd s 0)
      else place_fruit_loop rnd fuel (tries + 1) (placed rnd s 0)
    else Ok (placed rnd s 0).
Proof.
  intros Hok. cbn [place_fruit_loop rand].
  set (s2 := set_fruit _ (set_rand_next _ (set_fruit _ _))).
  assert (Hs2 : s2 = placed rnd s 0).
  { subst s2. unfold placed, sample, set_fruit, set_rand_next. simpl.
    rewrite !Nat.add_0_r. f_equal; [|lia]. do 4 f_equal. lia. }
  rewrite Hs2. clear s2 Hs2.
  rewrite (scan_fruit (placed rnd s 0)) by exact Hok.
  cbn [bind fruit placed set_fruit]. rewrite segments_placed.
  destruct (bool_decide _); reflexivity.
Qed.

(** The loop returns: in some round [k], the first whose cell is free, or
    the last one allowed when every cell drawn was taken. *)
Lemma place_fruit_loop_spec (fuel : nat) (tries : Z) (s : State) :
  buffer_ok s ->
  0 <= tries <= MAX_TRIES ->
  (Z.to_nat (MAX_TRIES + 1 - tries) <= fuel)%nat ->
  exists k : nat,
    Z.of_nat k <= MAX_TRIES - tries /\
    place_fruit_loop rnd fuel tries s = Ok (placed rnd s k) /\
    (forall j, (j < k)%nat -> sample rnd s j ∈ segments s) /\
    (sample rnd s k ∈ segments s -> Z.of_nat k = MAX_TRIES - tries).
Proof.
  revert tries s. induction fuel as [|fuel IH]; intros tries s Hok Ht Hfuel.
  - lia.
  - rewrite place_fruit_loop_round by exact Hok.
    destruct (bool_decide (sample rnd s 0 ∈ segments s)) eqn:Hcoll.
    + apply bool_decide_eq_true in Hcoll.
      destruct (MAX_TRIES <? tries + 1) eqn:Hlast.
      * apply Z.ltb_lt in Hlast. exists 0%nat.
        split; [lia|]. split; [reflexivity|]. split; [|lia].
        intros j Hj. lia.
      * apply Z.ltb_ge in Hlast.
        destruct (IH (tries + 1) (placed rnd s 0)) as (k & Hk & Hrun & Hbefore & Hat);
          [exact Hok|lia|lia|].
        exists (S k). rewrite Hrun, placed_placed.
        split; [lia|]. split; [f_equal; f_equal; lia|]. split.
        -- intros j Hj. destruct j as [|j]; [exact Hcoll|].
           specialize (Hbefore j ltac:(lia)).
           rewrite sample_placed, segments_placed in Hbefore. exact Hbefore.
        -- intros Hin. rewrite sample_placed, segments_placed in Hat.
           specialize (Hat Hin). lia.
    + apply bool_decide_eq_false in Hcoll. exists 0%nat.
      split; [lia|]. split; [reflexivity|]. split.
      * intros j Hj. lia.
      * intros Hin. contradiction.
Qed.

Lemma place_fruit_spec (s : State) :
  buffer_ok s ->
  exists k : nat,
    Z.of_nat k <= MAX_TRIES /\
    place_fruit rnd s = Ok (placed rnd s k) /\
    (forall j, (j < k)%nat -> sample rnd s j ∈ segments s) /\
    (sample rnd s k ∈ segments s -> Z.of_nat k = MAX_TRIES).
Proof.
  intros Hok. unfold place_fruit.
  destruct (place_fruit_loop_spec (Z.to_nat (MAX_TRIES + 1)) 0 s Hok)
    as (k & Hk & Hrun & Hbefore & Hat).
  - unfold MAX_TRIES. lia.
  - lia.
  - exists k. rewrite Z.sub_0_r in *. auto.
Qed.

End Placement.

(** ** One step of the snake *)

Ltac consts :=
  unfold MAX_SNAKE, DEFAULT_WIDTH, DEFAULT_HEIGHT, STARTING_LENGTH,
    INITIAL_DELAY_MS, MIN_DELAY_MS, MAX_TRIES in *.

Lemma segments_moved (s : State) :
  length (snake s) = Z.to_nat MAX_SNAKE ->
  1 <= snake_len s < MAX_SNAKE ->
  segments (moved s) = new_head s :: take (Z.to_nat (snake_len s) - 1) (segments s).
Proof.
  intros Hlen Hn. unfold segments, moved. simpl.
  destruct (Z.to_nat (snake_len s)) as [|n] eqn:E; [lia|].
  cbn [take]. f_equal. rewrite take_app_le by (rewrite length_take; lia).
  rewrite !take_take. f_equal. lia.
Qed.

Lemma segments_grown (s : State) :
  length (snake s) = Z.to_nat MAX_SNAKE ->
  0 <= snake_len s < MAX_SNAKE ->
  segments (grown s) = new_head s :: segments s.
Proof.
  intros Hlen Hn. unfold segments, grown, moved. simpl.
  replace (Z.to_nat (snake_len s + 1)) with (S (Z.to_nat (snake_len s))) by lia.
  cbn [take]. f_equal. apply take_app_length'. rewrite length_take. lia.
Qed.

Lemma buffer_ok_grown (s : State) :
  length (snake s) = Z.to_nat MAX_SNAKE ->
  0 <= snake_len s < MAX_SNAKE ->
  buffer_ok (grown s).
Proof.
  intros Hlen Hn. unfold buffer_ok, grown, moved. simpl. split; [|lia].
  rewrite length_app, length_take, length_drop. lia.
Qed.

Section Step.

Variable rnd : nat -> N.

(** [step_snake] by cases, for a state whose buffer has room for the
    shift. *)
Lemma step_snake_spec (s : State) :
  length (snake s) = Z.to_nat MAX_SNAKE ->
  0 <= snake_len s < MAX_SNAKE ->
  step_snake rnd s =
    if hits_wall s (new_head s) then Ok (0, s)
    else if bool_decide (new_head s ∈ segments s) then Ok (0, s)
    else if point_equal (new_head s) (fruit s) then
      do s' <- place_fruit rnd (grown s); Ok (finish_eating s')
    else Ok (1, moved s).
Proof.
  intros Hlen Hn. unfold step_snake.
  destruct (rd_in_range (snake s) Hlen 0) as (h & Hh & Hrd); [consts; lia|].
  change (Z.of_nat 0) with 0 in Hrd. rewrite Hrd. cbn [bind].
  assert (Hhead : advance (dir s) h = new_head s).
  { unfold new_head, head_of. destruct (snake s); [discriminate|].
    simpl in Hh. injection Hh as ->. reflexivity. }
  rewrite Hhead.
  destruct (hits_wall s (new_head s)); [reflexivity|].
  rewrite (scan_spec (snake s) Hlen _ _ 0%nat) by lia.
  cbn [bind]. rewrite drop_0, existsb_point_equal. fold (segments s).
  destruct (bool_decide (new_head s ∈ segments s)); [reflexivity|].
  replace (snake_len s) with (Z.of_nat (Z.to_nat (snake_len s))) at 2 by lia.
  rewrite shift_body_spec by (auto; lia). cbn [bind].
  set (shifted := take 1 (snake s) ++ _).
  assert (Hshifted : length shifted = Z.to_nat MAX_SNAKE).
  { subst shifted. rewrite !length_app, !length_take, length_drop. lia. }
  change 0 with (Z.of_nat 0) at 1.
  rewrite (wr_in_range shifted Hshifted 0) by (consts; lia).
  subst shifted. cbn [bind].
  assert (Hbuf : <[0%nat := new_head s]>
                   (take 1 (snake s) ++ take (Z.to_nat (snake_len s)) (snake s)
                    ++ drop (S (Z.to_nat (snake_len s))) (snake s))
                 = new_head s :: take (Z.to_nat (snake_len s)) (snake s)
                   ++ drop (S (Z.to_nat (snake_len s))) (snake s)).
  { destruct (snake s); [discriminate|]. reflexivity. }
  rewrite Hbuf. fold (moved s).
  change (fruit (moved s)) with (fruit s).
  destruct (point_equal (new_head s) (fruit s)); [|reflexivity].
  change (set_score _ _) with (grown s).
  destruct (place_fruit rnd (grown s)) as [s'| |]; [|reflexivity..].
  cbn [bind]. unfold finish_eating.
  destruct (MAX_SNAKE - 1 <=? snake_len (speed_up s')); reflexivity.
Qed.

End Step.

(** ** The invariant of a session *)

Lemma accepted_true (w h : Z) :
  accepted w h = true <-> 10 <= w /\ 5 <= h /\ w * h <= 10000.
Proof.
  unfold accepted. rewrite !andb_true_iff, !Z.leb_le. tauto.
Qed.

Lemma hits_wall_false (s : State) (p : Point) :
  hits_wall s p = false <-> in_grid (width s) (height s) p.
Proof.
  unfold hits_wall, in_grid. rewrite !orb_false_iff, !Z.ltb_ge, !Z.leb_gt. tauto.
Qed.

Lemma sample_in_grid (rnd : nat -> N) (s : State) (k : nat) :
  0 < width s -> 0 < height s ->
  in_grid (width s) (height s) (sample rnd s k).
Proof.
  intros Hw Hh. unfold in_grid, sample. simpl.
  split; apply Z.rem_bound_pos; lia.
Qed.

Lemma speed_up_frame (s : State) :
  width (speed_up s) = width s /\ height (speed_up s) = height s /\
  snake (speed_up s) = snake s /\ snake_len (speed_up s) = snake_len s /\
  dir (speed_up s) = dir s /\ fruit (speed_up s) = fruit s /\
  score (speed_up s) = score s /\ game_over (speed_up s) = game_over s /\
  rand_next (speed_up s) = rand_next s.
Proof. unfold speed_up. destruct (_ && _); simpl; tauto. Qed.

(** The speed-up keeps the delay a multiple of ten between the floor and
    the initial value, and the level in step with it. *)
Lemma speed_up_delay (s : State) :
  MIN_DELAY_MS <= delay_ms s <= INITIAL_DELAY_MS ->
  delay_ms s = INITIAL_DELAY_MS - 10 * (level s - 1) ->
  MIN_DELAY_MS <= delay_ms (speed_up s) <= INITIAL_DELAY_MS /\
  delay_ms (speed_up s) = INITIAL_DELAY_MS - 10 * (level (speed_up s) - 1).
Proof.
  intros Hd Hl. unfold speed_up.
  destruct (Z.rem (snake_len s) 3 =? 0); simpl; [|auto].
  destruct (MIN_DELAY_MS <? delay_ms s) eqn:E; simpl; [|auto].
  apply Z.ltb_lt in E. consts. lia.
Qed.

Lemma segments_speed_up (s : State) : segments (speed_up s) = segments s.
Proof.
  unfold segments. destruct (speed_up_frame s) as (_ & _ & -> & -> & _).
  reflexivity.
Qed.

Section Invariant.

Variable rnd : nat -> N.
Variables w h : Z.
Hypothesis size_ok : 10 <= w /\ 5 <= h.

Lemma inv_change_direction (d : Direction) (s : State) :
  inv w h s -> inv w h (change_direction d s).
Proof.
  intros H. unfold change_direction.
  destruct (is_reverse (dir s) d); [exact H|].
  destruct H. constructor; assumption.
Qed.

Lemma inv_game_over (s : State) :
  inv w h s -> inv w h (set_game_over 1 s).
Proof.
  intros H. destruct H. constructor; try assumption.
  - simpl. lia.
  - simpl. lia.
Qed.

Lemma inv_moved (s : State) :
  inv w h s -> game_over s = 0 ->
  hits_wall s (new_head s) = false ->
  new_head s ∉ segments s ->
  inv w h (moved s).
Proof.
  intros H Hrun Hwall Hself. pose proof H as Hinv. destruct H.
  specialize (inv_len_alive0 Hrun).
  assert (Hseg : segments (moved s)
                 = new_head s :: take (Z.to_nat (snake_len s) - 1) (segments s)).
  { apply segments_moved; [assumption|consts; lia]. }
  constructor; try assumption.
  - unfold moved. simpl. rewrite length_app, length_take, length_drop.
    consts. lia.
  - intros _. assumption.
  - rewrite Hseg. apply NoDup_cons. split.
    + intros Hin. apply Hself. eapply elem_of_sublist; [exact Hin|].
      apply sublist_take.
    + eapply sublist_NoDup; [eassumption|apply sublist_take].
  - rewrite Hseg. constructor.
    + apply hits_wall_false in Hwall. congruence.
    + apply Forall_take. assumption.
Qed.

Lemma inv_eaten (s : State) (k : nat) :
  inv w h s -> game_over s = 0 ->
  hits_wall s (new_head s) = false ->
  new_head s ∉ segments s ->
  let r := finish_eating (placed rnd (grown s) k) in
  inv w h (after_step (fst r) (snd r)).
Proof.
  intros H Hrun Hwall Hself. destruct H.
  specialize (inv_len_alive0 Hrun).
  set (s1 := placed rnd (grown s) k).
  assert (Hseg : segments s1 = new_head s :: segments s).
  { apply segments_grown; [assumption|consts; lia]. }
  assert (Hfruit : in_grid w h (fruit s1)).
  { subst s1. rewrite <- inv_width0, <- inv_height0.
    apply (sample_in_grid rnd (grown s) k); simpl; lia. }
  assert (Hbuf : length (snake s1) = Z.to_nat MAX_SNAKE).
  { apply (buffer_ok_grown s); [assumption|consts; lia]. }
  destruct (speed_up_frame s1) as (Hw & Hh & Hsn & Hlen & _ & Hf & Hsc & Hgo & _).
  destruct (speed_up_delay s1) as [Hdelay Hlevel]; [assumption..|].
  assert (Hseg2 : segments (speed_up s1) = new_head s :: segments s).
  { rewrite segments_speed_up. exact Hseg. }
  assert (Hbase : inv w h (speed_up s1) \/ snake_len s + 1 = MAX_SNAKE - 1).
  { destruct (Z.eq_dec (snake_len s + 1) (MAX_SNAKE - 1)) as [|Hne]; [auto|].
    left. constructor.
    - rewrite Hw. assumption.
    - rewrite Hh. assumption.
    - rewrite Hsn. assumption.
    - rewrite Hlen. simpl. lia.
    - rewrite Hlen. simpl. lia.
    - intros _. rewrite Hlen. simpl. lia.
    - rewrite Hgo. assumption.
    - rewrite Hseg2. apply NoDup_cons. auto.
    - rewrite Hseg2. constructor; [|assumption].
      apply hits_wall_false in Hwall. congruence.
    - rewrite Hf. assumption.
    - rewrite Hsc, Hlen. simpl. lia.
    - assumption.
    - assumption. }
  unfold finish_eating. fold s1. rewrite Hlen.
  change (snake_len s1) with (snake_len s + 1).
  destruct (MAX_SNAKE - 1 <=? snake_len s + 1) eqn:Hfull; simpl.
  - apply Z.leb_le in Hfull. constructor; simpl; try lia.
    + rewrite Hw. assumption.
    + rewrite Hh. assumption.
    + rewrite Hsn. assumption.
    + rewrite Hlen. simpl. lia.
    + rewrite Hlen. simpl. lia.
    + change (NoDup (segments (speed_up s1))). rewrite Hseg2.
      apply NoDup_cons. auto.
    + change (Forall (in_grid w h) (segments (speed_up s1))). rewrite Hseg2.
      constructor; [|assumption].
      apply hits_wall_false in Hwall. congruence.
    + rewrite Hf. assumption.
    + rewrite Hsc, Hlen. simpl. lia.
  - apply Z.leb_gt in Hfull. destruct Hbase as [Hbase|Hbase]; [exact Hbase|lia].
Qed.

(** [step_snake] returns, and the invariant holds afterwards. *)
Lemma inv_step_snake_grid (s : State) :
  inv w h s -> game_over s = 0 ->
  exists alive s',
    step_snake rnd s = Ok (alive, s') /\
    (alive = 0 \/ alive = 1) /\
    inv w h (after_step alive s').
Proof.
  intros H Hrun. pose proof H as Hinv. destruct H.
  specialize (inv_len_alive0 Hrun).
  rewrite step_snake_spec by (auto; consts; lia).
  destruct (hits_wall s (new_head s)) eqn:Hwall.
  { exists 0, s. split; [reflexivity|]. split; [auto|].
    apply inv_game_over. exact Hinv. }
  destruct (bool_decide (new_head s ∈ segments s)) eqn:Hself.
  { exists 0, s. split; [reflexivity|]. split; [auto|].
    apply inv_game_over. exact Hinv. }
  apply bool_decide_eq_false in Hself.
  destruct (point_equal (new_head s) (fruit s)).
  - destruct (place_fruit_spec rnd (grown s)) as (k & _ & -> & _).
    { apply buffer_ok_grown; [assumption|consts; lia]. }
    cbn [bind].
    pose proof (inv_eaten s k Hinv Hrun Hwall Hself) as Hnext.
    destruct (finish_eating (placed rnd (grown s) k)) as [alive s'] eqn:Hfin.
    exists alive, s'. split; [reflexivity|]. split; [|exact Hnext].
    unfold finish_eating in Hfin.
    destruct (MAX_SNAKE - 1 <=? _); injection Hfin as <- _; auto.
  - exists 1, (moved s). split; [reflexivity|]. split; [auto|].
    apply inv_moved; assumption.
Qed.

Lemma lay_snake_start (cx cy : Z) (buf : list Point) :
  length buf = Z.to_nat MAX_SNAKE ->
  exists buf',
    lay_snake cx cy (Z.to_nat STARTING_LENGTH) 0 buf = Ok buf' /\
    length buf' = Z.to_nat MAX_SNAKE /\
    take 4 buf' = [mkPoint cx cy; mkPoint (cx - 1) cy;
                   mkPoint (cx - 2) cy; mkPoint (cx - 3) cy].
Proof.
  intros Hlen. change (Z.to_nat STARTING_LENGTH) with 4%nat.
  cbn [lay_snake].
  change (0 + 1 + 1 + 1) with (Z.of_nat 3).
  change (0 + 1 + 1) with (Z.of_nat 2).
  change (0 + 1) with (Z.of_nat 1).
  change (wr buf 0) with (wr buf (Z.of_nat 0)).
  rewrite wr_in_range by (auto; consts; lia). cbn [bind].
  rewrite wr_in_range by (rewrite ?length_insert; auto; consts; lia).
  cbn [bind].
  rewrite wr_in_range by (rewrite ?length_insert; auto; consts; lia).
  cbn [bind].
  rewrite wr_in_range by (rewrite ?length_insert; auto; consts; lia).
  cbn [bind]. eexists. split; [reflexivity|]. split.
  - rewrite !length_insert. exact Hlen.
  - destruct buf as [|a [|b [|c [|d rest]]]]; simpl in Hlen; try (consts; lia).
    simpl. rewrite Z.sub_0_r. reflexivity.
Qed.

(** [init_game] returns, and the invariant holds in the state it leaves. *)
Lemma inv_init_game_grid :
  exists s, init_game rnd (set_size w h globals) = Ok s /\ inv w h s.
Proof.
  pose proof size_ok as Hsize.
  unfold init_game.
  destruct (lay_snake_start (Z.quot w 2) (Z.quot h 2) (snake globals))
    as (buf & Hlay & Hlen & Hseg).
  { apply length_replicate. }
  cbn [width height snake snake_len set_size set_score set_level set_delay_ms
       set_snake_len].
  rewrite Hlay. cbn [bind].
  set (s0 := set_dir RIGHT _).
  assert (Hok : buffer_ok s0).
  { split; [exact Hlen|]. simpl. consts. lia. }
  destruct (place_fruit_spec rnd s0 Hok) as (k & _ & -> & _). cbn [bind].
  eexists. split; [reflexivity|].
  assert (Hsegs : segments s0 = [mkPoint (Z.quot w 2) (Z.quot h 2);
                                 mkPoint (Z.quot w 2 - 1) (Z.quot h 2);
                                 mkPoint (Z.quot w 2 - 2) (Z.quot h 2);
                                 mkPoint (Z.quot w 2 - 3) (Z.quot h 2)]).
  { exact Hseg. }
  assert (Hcx : 5 <= Z.quot w 2 < w).
  { rewrite Z.quot_div_nonneg by lia. split.
    - apply Z.div_le_lower_bound; lia.
    - apply Z.div_lt_upper_bound; lia. }
  assert (Hcy : 0 <= Z.quot h 2 < h).
  { rewrite Z.quot_div_nonneg by lia. split.
    - apply Z.div_pos; lia.
    - apply Z.div_lt_upper_bound; lia. }
  constructor; simpl; try reflexivity; try (consts; lia).
  - change (NoDup (segments s0)). rewrite Hsegs.
    repeat (apply NoDup_cons; split;
            [rewrite ?elem_of_cons, elem_of_nil; intros Hin;
             repeat destruct Hin as [Hin|Hin]; try (injection Hin; lia); exact Hin|]).
    apply NoDup_nil_2.
  - change (Forall (in_grid w h) (segments s0)). rewrite Hsegs.
    repeat constructor; simpl; lia.
  - apply (sample_in_grid rnd s0 k); simpl; lia.
Qed.

(** Every reachable state satisfies the invariant. *)
Lemma reachable_inv_grid (s : State) : reachable rnd w h s -> inv w h s.
Proof.
  induction 1 as [s Hinit|s d Hreach IH Hrun|s alive s' Hreach IH Hrun Hstep].
  - destruct inv_init_game_grid as (s0 & Hs0 & Hinv). congruence.
  - apply inv_change_direction. exact IH.
  - destruct (inv_step_snake_grid s IH Hrun) as (a & t & Hst & _ & Hinv).
    rewrite Hst in Hstep. injection Hstep as <- <-. exact Hinv.
Qed.

End Invariant.

(** The same on a grid [main] accepted. *)
Lemma accepted_grid (w h : Z) : accepted w h = true -> 10 <= w /\ 5 <= h.
Proof. intros H. apply accepted_true in H. tauto. Qed.

Lemma inv_step_snake (rnd : nat -> N) (w h : Z) (Hsize : accepted w h = true)
    (s : State) :
  inv w h s -> game_over s = 0 ->
  exists alive s',
    step_snake rnd s = Ok (alive, s') /\
    (alive = 0 \/ alive = 1) /\
    inv w h (after_step alive s').
Proof. exact (inv_step_snake_grid rnd w h (accepted_grid w h Hsize) s). Qed.

Lemma inv_init_game (rnd : nat -> N) (w h : Z) :
  accepted w h = true ->
  exists s, init_game rnd (set_size w h globals) = Ok s /\ inv w h s.
Proof. intros Hsize. exact (inv_init_game_grid rnd w h (accepted_grid w h Hsize)). Qed.

Lemma reachable_inv (rnd : nat -> N) (w h : Z) (Hsize : accepted w h = true)
    (s : State) :
  reachable rnd w h s -> inv w h s.
Proof. exact (reachable_inv_grid rnd w h (accepted_grid w h Hsize) s). Qed.

(** ** The driver only produces reachable states *)

Lemma configure_size (args : option (Z * Z)) :
  configure args globals = set_size (grid_width args) (grid_height args) globals.
Proof.
  unfold grid_width, grid_height, configure.
  destruct args as [[w h]|]; [|reflexivity].
  destruct (accepted w h); reflexivity.
Qed.

Lemma configure_accepted (args : option (Z * Z)) :
  accepted (grid_width args) (grid_height args) = true.
Proof.
  unfold grid_width, grid_height, configure.
  destruct args as [[w h]|]; [|reflexivity].
  destruct (accepted w h) eqn:E; [exact E|reflexivity].
Qed.

Lemma poll_input_reachable (rnd : nat -> N) (w h : Z) (key : option Z) (s : State) :
  reachable rnd w h s -> game_over s = 0 ->
  reachable rnd w h (snd (poll_input key s)) /\
  game_over (snd (poll_input key s)) = 0.
Proof.
  intros Hreach Hrun.
  assert (Hturn : forall d, reachable rnd w h (change_direction d s) /\
                            game_over (change_direction d s) = 0).
  { intros d. split; [apply reach_turn; assumption|].
    unfold change_direction. destruct (is_reverse (dir s) d); assumption. }
  unfold poll_input. destruct key as [c|]; [|auto].
  repeat (match goal with |- context [if ?b then _ else _] => destruct b end;
          [first [apply Hturn | simpl; auto]|]).
  simpl. auto.
Qed.

Lemma main_loop_reachable (rnd : nat -> N) (w h : Z) (keys : list (option Z)) :
  forall (paused : bool) (s s' : State),
    reachable rnd w h s ->
    main_loop rnd keys paused s = Ok s' ->
    reachable rnd w h s'.
Proof.
  induction keys as [|key keys IH]; intros paused s s' Hreach Hrun.
  - injection Hrun as <-. exact Hreach.
  - cbn [main_loop] in Hrun.
    destruct (game_over s =? 0) eqn:Hgo; cbn [negb] in Hrun.
    2:{ injection Hrun as <-. exact Hreach. }
    apply Z.eqb_eq in Hgo.
    destruct (poll_input_reachable rnd w h key s Hreach Hgo) as [Hpoll Hgo'].
    destruct (poll_input key s) as [input s1]. cbn [snd] in Hpoll, Hgo'.
    destruct (paused && negb (input =? chr "p")); [eauto|].
    destruct (negb paused && (input =? chr "q")).
    { injection Hrun as <-. exact Hpoll. }
    destruct (negb paused && (input =? chr "p")); [eauto|].
    destruct (step_snake rnd s1) as [[alive s2]| |] eqn:Hstep; try discriminate.
    cbn [bind fst snd] in Hrun.
    pose proof (reach_step rnd w h s1 alive s2 Hpoll Hgo' Hstep) as Hnext.
    destruct (alive =? 0); [|eauto].
    injection Hrun as <-. exact Hnext.
Qed.

Lemma main_reachable (rnd : nat -> N) (args : option (Z * Z))
    (keys : list (option Z)) (s : State) :
  main rnd args keys = Ok s ->
  reachable rnd (grid_width args) (grid_height args) s.
Proof.
  unfold main. rewrite configure_size.
  destruct (init_game rnd _) as [s0| |] eqn:Hinit; try discriminate.
  cbn [bind]. apply main_loop_reachable. apply reach_init. exact Hinit.
Qed.

(** ** The statements *)

Lemma advance_one_cell (d : Direction) (p : Point) :
  Z.abs (px (advance d p) - px p) + Z.abs (py (advance d p) - py p) = 1.
Proof. destruct d; simpl; lia. Qed.

Lemma length_segments (w h : Z) (s : State) :
  inv w h s -> length (segments s) = Z.to_nat (snake_len s).
Proof.
  intros H. destruct H. unfold segments. rewrite length_take. consts. lia.
Qed.

Lemma last_cons_nonempty (x : Point) (l : list Point) :
  l <> [] -> last (x :: l) = last l.
Proof. destruct l; [congruence|reflexivity]. Qed.

(** C8: [change_direction] keeps the stored direction when the requested
    one is its exact reverse and stores the requested one otherwise; it
    always returns, and nothing but [dir] differs afterwards. *)
Theorem change_direction_ignores_reversal (r : Direction) (s : State) :
  dir (change_direction r s)
  = (if decide (r = opposite (dir s)) then dir s else r) /\
  change_direction r s = set_dir (dir (change_direction r s)) s.
Proof.
  unfold change_direction. destruct s as [? ? ? ? d ? ? ? ? ? ?]. simpl.
  destruct d, r; simpl; split; reflexivity.
Qed.

(** C10: in every reachable state the score is ten times the number of
    segments gained since the start, [score = 10 * (snake_len - 4)]. *)
Theorem score_is_ten_per_segment (rnd : nat -> N) (w h : Z) (s : State) :
  accepted w h = true ->
  reachable rnd w h s ->
  score s = 10 * (snake_len s - 4).
Proof.
  intros Hsize Hreach.
  exact (inv_score w h s (reachable_inv rnd w h Hsize s Hreach)).
Qed.

(** C3: on every accepted grid, [init_game] and every [step_snake] of a
    running session return without an access outside the snake buffer:
    each index read or written is below [MAX_SNAKE].  (Every access goes
    through [rd] or [wr], which answer [OutOfBounds] for an index outside
    [0, MAX_SNAKE), and [OutOfBounds] propagates to the result.)  The largest
    index a step touches is [snake_len], which stays below the capacity. *)
Theorem snake_buffer_never_exceeded (rnd : nat -> N) (w h : Z) :
  accepted w h = true ->
  (exists s0, init_game rnd (set_size w h globals) = Ok s0) /\
  (forall s, reachable rnd w h s -> game_over s = 0 ->
     snake_len s < MAX_SNAKE /\
     exists alive s', step_snake rnd s = Ok (alive, s')).
Proof.
  intros Hsize. split.
  - destruct (inv_init_game rnd w h Hsize) as (s0 & Hs0 & _). eauto.
  - intros s Hreach Hrun.
    pose proof (reachable_inv rnd w h Hsize s Hreach) as Hinv.
    split.
    + pose proof (inv_len_max w h s Hinv). lia.
    + destruct (inv_step_snake rnd w h Hsize s Hinv Hrun) as (a & s' & Hs & _).
      eauto.
Qed.

(** C9: in a running reachable state whose new head is inside the grid, on
    no segment and not on the fruit, [step_snake] returns 1 (the game goes
    on), the head is one cell further in the current direction, the body
    follows, the cell of the old tail is no longer part of the snake, and
    length, score, level, delay and fruit are what they were. *)
Theorem tick_plain_move (rnd : nat -> N) (w h : Z) (s : State) :
  accepted w h = true ->
  reachable rnd w h s ->
  game_over s = 0 ->
  hits_wall s (new_head s) = false ->
  new_head s ∉ segments s ->
  new_head s <> fruit s ->
  exists s',
    step_snake rnd s = Ok (1, s') /\
    after_step 1 s' = s' /\ game_over s' = 0 /\
    head_of s' = advance (dir s) (head_of s) /\
    Z.abs (px (head_of s') - px (head_of s))
      + Z.abs (py (head_of s') - py (head_of s)) = 1 /\
    segments s' = head_of s' :: take (Z.to_nat (snake_len s) - 1) (segments s) /\
    (forall t, last (segments s) = Some t -> t ∉ segments s') /\
    snake_len s' = snake_len s /\ score s' = score s /\ level s' = level s /\
    delay_ms s' = delay_ms s /\ fruit s' = fruit s.
Proof.
  intros Hsize Hreach Hrun Hwall Hself Hfruit.
  pose proof (reachable_inv rnd w h Hsize s Hreach) as Hinv.
  pose proof (length_segments w h s Hinv) as Hlength.
  pose proof Hinv as H. destruct H.
  specialize (inv_len_alive0 Hrun).
  exists (moved s).
  assert (Hseg : segments (moved s)
                 = new_head s :: take (Z.to_nat (snake_len s) - 1) (segments s)).
  { apply segments_moved; [assumption|consts; lia]. }
  split.
  { rewrite step_snake_spec by (auto; consts; lia).
    rewrite Hwall, (bool_decide_eq_false_2 _ Hself).
    destruct (point_equal (new_head s) (fruit s)) eqn:E; [|reflexivity].
    apply point_equal_true in E. contradiction. }
  split; [reflexivity|]. split; [exact Hrun|]. split; [reflexivity|].
  split; [apply advance_one_cell|]. split; [exact Hseg|].
  split; [|repeat split; reflexivity].
  intros t Ht Hin. rewrite Hseg in Hin.
  apply last_Some in Ht as [l Hl].
  assert (Hl' : take (Z.to_nat (snake_len s) - 1) (segments s) = l).
  { rewrite Hl. apply take_app_length'.
    rewrite Hl, length_app in Hlength. simpl in Hlength. lia. }
  rewrite Hl' in Hin. apply elem_of_cons in Hin as [Heq|Hin].
  - apply Hself. rewrite <- Heq, Hl. apply elem_of_app. right. left.
  - rewrite Hl in inv_distinct0. apply NoDup_app in inv_distinct0.
    destruct inv_distinct0 as (_ & Hdisj & _).
    apply (Hdisj t Hin). left.
Qed.

(** C7, amended: when a running reachable state's new head is on the
    fruit and hits neither wall nor snake, [step_snake] makes the snake one
    segment longer and the score ten higher; every old segment keeps its
    cell, one index further from the head, so the cell of the old tail is
    still occupied, by the last segment of the longer snake (index
    [snake_len] of before). *)
Theorem tick_eats_fruit (rnd : nat -> N) (w h : Z) (s : State) :
  accepted w h = true ->
  reachable rnd w h s ->
  game_over s = 0 ->
  hits_wall s (new_head s) = false ->
  new_head s ∉ segments s ->
  new_head s = fruit s ->
  exists alive s',
    step_snake rnd s = Ok (alive, s') /\
    snake_len s' = snake_len s + 1 /\
    score s' = score s + 10 /\
    segments s' = new_head s :: segments s /\
    last (segments s') = last (segments s) /\
    segments s' !! Z.to_nat (snake_len s) = last (segments s).
Proof.
  intros Hsize Hreach Hrun Hwall Hself Hfruit.
  pose proof (reachable_inv rnd w h Hsize s Hreach) as Hinv.
  pose proof (length_segments w h s Hinv) as Hlength.
  pose proof Hinv as H. destruct H.
  specialize (inv_len_alive0 Hrun).
  rewrite step_snake_spec by (auto; consts; lia).
  rewrite Hwall, (bool_decide_eq_false_2 _ Hself).
  replace (point_equal (new_head s) (fruit s)) with true
    by (symmetry; apply point_equal_true; exact Hfruit).
  destruct (place_fruit_spec rnd (grown s)) as (k & _ & -> & _).
  { apply buffer_ok_grown; [assumption|consts; lia]. }
  cbn [bind]. set (s1 := placed rnd (grown s) k).
  destruct (speed_up_frame s1) as (_ & _ & _ & Hlen & _ & _ & Hsc & _).
  assert (Hseg : segments (speed_up s1) = new_head s :: segments s).
  { rewrite segments_speed_up. apply segments_grown; [assumption|consts; lia]. }
  assert (Hne : segments s <> []).
  { intros E. rewrite E in Hlength. simpl in Hlength. consts. lia. }
  exists (fst (finish_eating s1)), (snd (finish_eating s1)).
  split; [destruct (finish_eating s1); reflexivity|].
  assert (Hsnd : snd (finish_eating s1) = speed_up s1).
  { unfold finish_eating. destruct (_ <=? _); reflexivity. }
  rewrite Hsnd, Hlen, Hsc, Hseg.
  split; [reflexivity|]. split; [reflexivity|]. split; [reflexivity|].
  split; [apply last_cons_nonempty; exact Hne|].
  rewrite last_lookup, Hlength.
  destruct (Z.to_nat (snake_len s)) as [|n] eqn:E; [consts; lia|].
  reflexivity.
Qed.

(** C6, amended: in a running reachable state [step_snake] returns 0 (game
    over) when the new head is outside the grid or on a segment of the snake
    (the tail included), and then every global is what it was; it returns 0
    otherwise only in a step that eats the fruit, never in a plain move.  On
    a grid that has as many cells as the snake buffer, the default one
    among them, it returns 0 exactly then or when the step eats the fruit
    and the grown snake has [width * height - 1] segments, one less than the
    grid has cells. *)
Theorem tick_game_over_causes (rnd : nat -> N) (w h : Z) (s : State) :
  accepted w h = true ->
  reachable rnd w h s ->
  game_over s = 0 ->
  exists alive s',
    step_snake rnd s = Ok (alive, s') /\
    (alive = 0 \/ alive = 1) /\
    (collides s -> alive = 0 /\ s' = s) /\
    (alive = 0 -> collides s \/ new_head s = fruit s) /\
    (w * h = MAX_SNAKE ->
       (alive = 0 <->
          collides s \/
          (new_head s = fruit s /\ width s * height s - 1 <= snake_len s + 1))).
Proof.
  intros Hsize Hreach Hrun.
  pose proof (reachable_inv rnd w h Hsize s Hreach) as Hinv.
  pose proof Hinv as H. destruct H.
  specialize (inv_len_alive0 Hrun).
  rewrite step_snake_spec by (auto; consts; lia). unfold collides.
  destruct (hits_wall s (new_head s)) eqn:Hwall.
  { exists 0, s. repeat split; auto. }
  destruct (bool_decide (new_head s ∈ segments s)) eqn:Hself.
  { apply bool_decide_eq_true in Hself. exists 0, s. repeat split; auto. }
  apply bool_decide_eq_false in Hself.
  assert (Hfree : ~ (false = true \/ new_head s ∈ segments s)).
  { intros [?|?]; [discriminate|contradiction]. }
  destruct (point_equal (new_head s) (fruit s)) eqn:Hfruit.
  - apply point_equal_true in Hfruit.
    destruct (place_fruit_spec rnd (grown s)) as (k & _ & -> & _).
    { apply buffer_ok_grown; [assumption|consts; lia]. }
    cbn [bind]. set (s1 := placed rnd (grown s) k).
    destruct (speed_up_frame s1) as (_ & _ & _ & Hlen & _).
    unfold finish_eating. rewrite Hlen.
    change (snake_len s1) with (snake_len s + 1).
    destruct (MAX_SNAKE - 1 <=? snake_len s + 1) eqn:Hfull.
    + apply Z.leb_le in Hfull. exists 0, (speed_up s1).
      split; [reflexivity|]. split; [auto|]. split; [tauto|].
      split; [auto|]. intros Hcells.
      rewrite inv_width0, inv_height0, Hcells. split; auto.
    + apply Z.leb_gt in Hfull. exists 1, (speed_up s1).
      split; [reflexivity|]. split; [auto|]. split; [tauto|].
      split; [discriminate|]. intros Hcells.
      rewrite inv_width0, inv_height0, Hcells.
      split; [discriminate|]. intros [?|[_ ?]]; [tauto|lia].
  - exists 1, (moved s).
    split; [reflexivity|]. split; [auto|]. split; [tauto|].
    split; [discriminate|]. intros _.
    split; [discriminate|]. intros [?|[E _]]; [tauto|].
    apply point_equal_true in E. congruence.
Qed.

(** C4, amended: on a grid with cells, [place_fruit] returns, leaves the
    snake as it is and puts the fruit on the first cell drawn that no
    segment occupies; the fruit is on a segment only when all 10001 cells it
    drew were occupied, and then it is the last of them. *)
Theorem fruit_off_snake_unless_exhausted (rnd : nat -> N) (s : State) :
  buffer_ok s ->
  0 < width s -> 0 < height s ->
  exists k s',
    place_fruit rnd s = Ok s' /\
    segments s' = segments s /\
    fruit s' = sample rnd s k /\
    Z.of_nat k <= MAX_TRIES /\
    (forall j, (j < k)%nat -> sample rnd s j ∈ segments s) /\
    (fruit s' ∈ segments s' -> Z.of_nat k = MAX_TRIES).
Proof.
  intros Hok _ _.
  destruct (place_fruit_spec rnd s Hok) as (k & Hk & Hrun & Hbefore & Hat).
  exists k, (placed rnd s k). repeat split; auto.
Qed.

(** ** The statements on concrete sessions *)

Lemma is_ok_state_of (r : result State) : is_ok r = true -> r = Ok (state_of r).
Proof. destruct r; [reflexivity|discriminate..]. Qed.

Lemma scan_finds (p : Point) (l : list Point) :
  existsb (point_equal p) l = true -> p ∈ l.
Proof. rewrite existsb_point_equal. apply bool_decide_eq_true. Qed.

Lemma scan_misses (p : Point) (l : list Point) :
  existsb (point_equal p) l = false -> p ∉ l.
Proof. rewrite existsb_point_equal. apply bool_decide_eq_false. Qed.

Ltac evaluate := vm_compute; reflexivity.
Ltac by_evaluation :=
  first [apply scan_misses | apply scan_finds]; evaluate.

Lemma reachable_start_corner : reachable rnd_zero 30 20 start_corner.
Proof. apply reach_init. evaluate. Qed.

Lemma reachable_start_line : reachable rnd_line 30 20 start_line.
Proof. apply reach_init. evaluate. Qed.

Lemma reachable_line_run (n : nat) :
  is_ok (main rnd_line None (replicate n None)) = true ->
  reachable rnd_line 30 20 (line_run n).
Proof.
  intros Hok. apply (main_reachable rnd_line None (replicate n None)).
  apply is_ok_state_of. exact Hok.
Qed.

Lemma reachable_tour_run (n : nat) :
  is_ok (main rnd_tour (Some (10, 5)) (map key_of (take n tour_10x5))) = true ->
  reachable rnd_tour 10 5 (tour_run n).
Proof.
  intros Hok.
  apply (main_reachable rnd_tour (Some (10, 5)) (map key_of (take n tour_10x5))).
  apply is_ok_state_of. exact Hok.
Qed.

Lemma stops_on_fruit_sound (rnd : nat -> N) (args : option (Z * Z))
    (keys : list (option Z)) (len : Z) :
  stops_on_fruit rnd args keys len = true ->
  let s := state_of (main rnd args keys) in
  reachable rnd (grid_width args) (grid_height args) s /\
  game_over s = 0 /\
  snake_len s = len /\
  hits_wall s (new_head s) = false /\
  (new_head s ∉ segments s) /\
  new_head s = fruit s /\
  exists s', step_snake rnd s = Ok (0, s') /\ snake_len s' = len + 1.
Proof.
  unfold stops_on_fruit. cbv zeta.
  generalize (main_reachable rnd args keys).
  generalize (main rnd args keys) as r. intros r Hreach.
  generalize (state_of r) (is_ok_state_of r). intros s Hs.
  rewrite !andb_true_iff, !negb_true_iff, !Z.eqb_eq, point_equal_true.
  intros ((((((Hok & Hrun) & Hlen) & Hwall) & Hself) & Hfruit) & Hstep).
  split; [apply Hreach, Hs, Hok|].
  split; [exact Hrun|]. split; [exact Hlen|]. split; [exact Hwall|].
  split.
  { intros Hin. apply (bool_decide_eq_true_2 _) in Hin.
    rewrite <- existsb_point_equal in Hin. congruence. }
  split; [exact Hfruit|].
  destruct (step_snake rnd s) as [[alive s']| |]; try discriminate.
  apply andb_prop in Hstep. destruct Hstep as [Ha Hl].
  apply Z.eqb_eq in Ha, Hl. subst alive. eauto.
Qed.

Lemma board_stops_on_fruit :
  stops_on_fruit rnd_board None board_keys 598 = true.
Proof. evaluate. Qed.

Lemma sweep_stops_on_fruit :
  stops_on_fruit rnd_sweep (Some (100, 100)) sweep_keys 598 = true.
Proof. evaluate. Qed.

(** C10, at the default session after two fruits. *)
Lemma score_is_ten_per_segment_witness :
  score (line_run 2) = 10 * (snake_len (line_run 2) - 4).
Proof.
  apply (score_is_ten_per_segment rnd_line 30 20 (line_run 2)).
  - reflexivity.
  - apply reachable_line_run. evaluate.
Defined.

(** C3, on the default grid. *)
Lemma snake_buffer_never_exceeded_witness :
  (exists s0, init_game rnd_line (set_size 30 20 globals) = Ok s0) /\
  (forall s, reachable rnd_line 30 20 s -> game_over s = 0 ->
     snake_len s < MAX_SNAKE /\
     exists alive s', step_snake rnd_line s = Ok (alive, s')).
Proof.
  apply (snake_buffer_never_exceeded rnd_line 30 20). reflexivity.
Defined.

(** C9, at the first tick of the default session with the fruit in the
    corner. *)
Lemma tick_plain_move_witness :
  exists s',
    step_snake rnd_zero start_corner = Ok (1, s') /\
    head_of s' = advance (dir start_corner) (head_of start_corner) /\
    snake_len s' = snake_len start_corner.
Proof.
  destruct (tick_plain_move rnd_zero 30 20 start_corner)
    as (s' & Hstep & _ & _ & Hhead & _ & _ & _ & Hlen & _).
  - reflexivity.
  - exact reachable_start_corner.
  - evaluate.
  - evaluate.
  - by_evaluation.
  - intros H. vm_compute in H. discriminate H.
  - exists s'. auto.
Defined.

(** C7 (amended), at the first tick of the default session with the fruit
    ahead. *)
Lemma tick_eats_fruit_witness :
  exists alive s',
    step_snake rnd_line start_line = Ok (alive, s') /\
    snake_len s' = snake_len start_line + 1 /\
    score s' = score start_line + 10 /\
    last (segments s') = last (segments start_line).
Proof.
  destruct (tick_eats_fruit rnd_line 30 20 start_line)
    as (alive & s' & Hstep & Hlen & Hscore & _ & Hlast & _).
  - reflexivity.
  - exact reachable_start_line.
  - evaluate.
  - evaluate.
  - by_evaluation.
  - evaluate.
  - exists alive, s'. auto.
Defined.

(** C6 (amended), at the first tick of the default session. *)
Lemma tick_game_over_causes_witness :
  exists alive s',
    step_snake rnd_line start_line = Ok (alive, s') /\
    (alive = 0 -> collides start_line \/ new_head start_line = fruit start_line) /\
    (alive = 0 <->
       collides start_line \/
       (new_head start_line = fruit start_line /\
        width start_line * height start_line - 1 <= snake_len start_line + 1)).
Proof.
  destruct (tick_game_over_causes rnd_line 30 20 start_line)
    as (alive & s' & Hstep & _ & _ & Honly & Hiff).
  - reflexivity.
  - exact reachable_start_line.
  - evaluate.
  - exists alive, s'. split; [exact Hstep|]. split; [exact Honly|].
    apply Hiff. reflexivity.
Defined.

(** C4 (amended), at the placement that follows the start of the default
    session. *)
Lemma fruit_off_snake_unless_exhausted_witness :
  exists k s',
    place_fruit rnd_line start_line = Ok s' /\
    fruit s' = sample rnd_line start_line k /\
    (fruit s' ∈ segments s' -> Z.of_nat k = MAX_TRIES).
Proof.
  destruct (fruit_off_snake_unless_exhausted rnd_line start_line)
    as (k & s' & Hrun & _ & Hfruit & _ & _ & Hon).
  - split; [evaluate|].
    assert (Hlen : snake_len start_line = 4) by evaluate.
    rewrite Hlen. consts. lia.
  - evaluate.
  - evaluate.
  - exists k, s'. auto.
Defined.

(** C4 as worded fails: on a 10 x 5 grid with [rand()] stuck at 2 every
    cell drawn is (2,2), the tail of the new snake; after 10001 rounds
    [place_fruit] gives up and [init_game] leaves the fruit on the tail. *)
Lemma fruit_lands_on_snake :
  init_game rnd_two (set_size 10 5 globals) = Ok start_small /\
  reachable rnd_two 10 5 start_small /\
  fruit start_small = mkPoint 2 2 /\
  fruit start_small ∈ segments start_small.
Proof.
  assert (Hinit : init_game rnd_two (set_size 10 5 globals) = Ok start_small)
    by (apply is_ok_state_of; evaluate).
  split; [exact Hinit|]. split; [apply reach_init; exact Hinit|].
  split; [evaluate|]. by_evaluation.
Qed.

(** C7 as worded fails: at the first tick of the default session with the
    fruit ahead the snake (15,10) (14,10) (13,10) (12,10) eats; afterwards
    the old tail cell (12,10) is held by the segment at index 4, the new
    last one, and by no other: not by index 2, second to last before the
    tick, nor by index 3, second to last after it. *)
Lemma old_tail_cell_not_with_second_to_last :
  reachable rnd_line 30 20 start_line /\
  game_over start_line = 0 /\
  ~ collides start_line /\
  new_head start_line = fruit start_line /\
  ~ grows_as_claimed rnd_line start_line /\
  exists s',
    step_snake rnd_line start_line = Ok (1, s') /\
    last (segments start_line) = Some (mkPoint 12 10) /\
    forall i, segments s' !! i = Some (mkPoint 12 10) -> i = 4%nat.
Proof.
  split; [exact reachable_start_line|]. split; [evaluate|].
  split.
  { intros [H|H]; [vm_compute in H; discriminate H|].
    revert H. by_evaluation. }
  split; [evaluate|].
  split.
  { intros (alive & s' & Hstep & _ & _ & Hseg).
    vm_compute in Hstep. injection Hstep as <- <-.
    vm_compute in Hseg. discriminate Hseg. }
  eexists. split; [evaluate|]. split; [evaluate|].
  intros i Hi. vm_compute in Hi.
  do 5 (destruct i as [|i]; [try discriminate Hi; try reflexivity|]).
  simpl in Hi. destruct i; discriminate Hi.
Qed.

(** C6 as worded fails: on the default 30 x 20 grid, after 594 fruits the
    snake has 598 segments; the next step moves onto the fruit, inside the
    grid and on no segment, brings the snake to 599 = 30 * 20 - 1 segments
    and returns 0: game over without a collision, the state changed. *)
Lemma game_over_without_collision :
  let s := state_of (main rnd_board None board_keys) in
  reachable rnd_board 30 20 s /\
  game_over s = 0 /\
  ~ collides s /\
  exists s',
    step_snake rnd_board s = Ok (0, s') /\
    snake_len s' = 30 * 20 - 1 /\
    s' <> s.
Proof.
  destruct (stops_on_fruit_sound _ _ _ _ board_stops_on_fruit)
    as (Hreach & Hrun & Hlen & Hwall & Hself & Hfruit & s' & Hstep & Hlen').
  cbv zeta. split; [exact Hreach|]. split; [exact Hrun|].
  split.
  { intros [H|H]; [congruence|contradiction]. }
  exists s'. split; [exact Hstep|]. split; [exact Hlen'|]. intros ->. lia.
Qed.

(** C1 fails on the code: in the default session with the fruit always
    ahead, the first fruit leaves level 1 and delay 200, the second one
    raises the level to 2 and lowers the delay to 190, and the third one
    changes neither. *)
Theorem speed_up_comes_with_second_fruit :
  (score (line_run 1), snake_len (line_run 1), level (line_run 1),
   delay_ms (line_run 1)) = (10, 5, 1, 200) /\
  (score (line_run 2), snake_len (line_run 2), level (line_run 2),
   delay_ms (line_run 2)) = (20, 6, 2, 190) /\
  (score (line_run 3), snake_len (line_run 3), level (line_run 3),
   delay_ms (line_run 3)) = (30, 7, 2, 190).
Proof. split; [evaluate|]. split; evaluate. Qed.

(** C2 fails on the code: on a 10 x 5 grid the tour brings the snake from
    48 to 49 segments, the grid's capacity minus one, and the game goes on;
    on a 100 x 100 grid the step that brings the snake to 599 segments stops
    the game, far below 100 * 100 - 1. *)
Theorem board_full_ignores_grid_size :
  (reachable rnd_tour 10 5 (tour_run 45) /\
   snake_len (tour_run 44) = 48 /\
   snake_len (tour_run 45) = width (tour_run 45) * height (tour_run 45) - 1 /\
   game_over (tour_run 45) = 0) /\
  (exists s s',
     reachable rnd_sweep 100 100 s /\ width s * height s - 1 = 9999 /\
     game_over s = 0 /\ ~ collides s /\
     step_snake rnd_sweep s = Ok (0, s') /\ snake_len s' = 599).
Proof.
  split.
  - split; [apply reachable_tour_run; evaluate|].
    split; [evaluate|]. split; evaluate.
  - destruct (stops_on_fruit_sound _ _ _ _ sweep_stops_on_fruit)
      as (Hreach & Hrun & Hlen & Hwall & Hself & Hfruit & s' & Hstep & Hlen').
    cbv zeta in *.
    pose proof (reachable_inv rnd_sweep _ _ (configure_accepted (Some (100, 100)))
                  _ Hreach) as Hinv.
    eexists _, s'. split; [exact Hreach|].
    split; [rewrite (inv_width _ _ _ Hinv), (inv_height _ _ _ Hinv); reflexivity|].
    split; [exact Hrun|].
    split; [intros [H|H]; [congruence|contradiction]|].
    split; [exact Hstep|exact Hlen'].
Qed.

(** C5 fails on the code: on a 10 x 5 grid the tour ends, the game still
    running, with a snake of 50 segments, one more than
    [width * height - 1]. *)
Theorem small_board_snake_exceeds_bound :
  reachable rnd_tour 10 5 (tour_run 46) /\
  game_over (tour_run 46) = 0 /\
  snake_len (tour_run 46) = 50 /\
  width (tour_run 46) * height (tour_run 46) - 1 = 49.
Proof.
  split; [apply reachable_tour_run; evaluate|].
  split; [evaluate|]. split; evaluate.
Qed.

(** * Further properties of the engine *)

(** ** What holds throughout a session *)

(** Pairwise distinct cells of a [w] x [h] grid are at most [w * h]. *)
Lemma cells_fit_grid (w h : Z) (l : list Point) :
  0 <= w -> 0 <= h ->
  NoDup l -> Forall (in_grid w h) l ->
  Z.of_nat (length l) <= w * h.
Proof.
  intros Hw Hh Hnd Hin.
  assert (Hsub : cell_index w <$> l ⊆+ seq 0 (Z.to_nat (w * h))).
  { apply NoDup_submseteq.
    - apply NoDup_fmap_2_strong; [|exact Hnd].
      intros p q Hp Hq Heq.
      rewrite Forall_forall in Hin.
      destruct (Hin p Hp) as [Hpx Hpy], (Hin q Hq) as [Hqx Hqy].
      unfold cell_index in Heq.
      assert (Hz : py p * w + px p = py q * w + px q) by nia.
      assert (py p = py q) by nia.
      assert (px p = px q) by nia.
      destruct p, q; simpl in *; congruence.
    - intros n Hn. apply list_elem_of_fmap in Hn as (p & -> & Hp).
      rewrite Forall_forall in Hin. destruct (Hin p Hp) as [Hpx Hpy].
      apply elem_of_seq. unfold cell_index. nia. }
  apply submseteq_length in Hsub.
  rewrite length_fmap, length_seq in Hsub. lia.
Qed.

(** X1: in every reachable state the segments of the snake are pairwise
    distinct cells of the grid, the fruit is a cell of the grid, and the
    grid is the one the session started with. *)
Theorem session_geometry (rnd : nat -> N) (w h : Z) (s : State) :
  accepted w h = true ->
  reachable rnd w h s ->
  width s = w /\ height s = h /\
  NoDup (segments s) /\
  Forall (in_grid w h) (segments s) /\
  in_grid w h (fruit s).
Proof.
  intros Hsize Hreach.
  destruct (reachable_inv rnd w h Hsize s Hreach). auto.
Qed.

Lemma session_geometry_witness :
  NoDup (segments (tour_run 46)) /\ in_grid 10 5 (fruit (tour_run 46)).
Proof.
  destruct (session_geometry rnd_tour 10 5 (tour_run 46))
    as (_ & _ & Hnd & _ & Hfruit).
  - reflexivity.
  - apply reachable_tour_run. evaluate.
  - auto.
Defined.

(** X2: in every reachable state the snake has at least [STARTING_LENGTH]
    segments, at most [MAX_SNAKE - 1] and at most as many as the grid has
    cells; while the game is running it has at most [MAX_SNAKE - 2]. *)
Theorem snake_length_bounds (rnd : nat -> N) (w h : Z) (s : State) :
  accepted w h = true ->
  reachable rnd w h s ->
  length (segments s) = Z.to_nat (snake_len s) /\
  STARTING_LENGTH <= snake_len s <= MAX_SNAKE - 1 /\
  snake_len s <= w * h /\
  (game_over s = 0 -> snake_len s <= MAX_SNAKE - 2).
Proof.
  intros Hsize Hreach.
  pose proof (reachable_inv rnd w h Hsize s Hreach) as Hinv.
  pose proof (length_segments w h s Hinv) as Hlength.
  apply accepted_true in Hsize.
  pose proof (cells_fit_grid w h (segments s) ltac:(lia) ltac:(lia)
                (inv_distinct _ _ _ Hinv) (inv_in_grid _ _ _ Hinv)) as Hfit.
  destruct Hinv. split; [exact Hlength|]. split; [lia|]. split; [|assumption].
  rewrite Hlength in Hfit. consts. lia.
Qed.

Lemma snake_length_bounds_witness :
  STARTING_LENGTH <= snake_len (tour_run 46) <= MAX_SNAKE - 1 /\
  snake_len (tour_run 46) <= 10 * 5.
Proof.
  destruct (snake_length_bounds rnd_tour 10 5 (tour_run 46))
    as (_ & Hlen & Hgrid & _).
  - reflexivity.
  - apply reachable_tour_run. evaluate.
  - auto.
Defined.

(** X3: in every reachable state the delay is the initial delay minus ten
    per level gained, between [MIN_DELAY_MS] and [INITIAL_DELAY_MS]; the
    level is between 1 and 16. *)
Theorem delay_follows_level (rnd : nat -> N) (w h : Z) (s : State) :
  accepted w h = true ->
  reachable rnd w h s ->
  delay_ms s = INITIAL_DELAY_MS - 10 * (level s - 1) /\
  MIN_DELAY_MS <= delay_ms s <= INITIAL_DELAY_MS /\
  1 <= level s <= 16.
Proof.
  intros Hsize Hreach.
  destruct (reachable_inv rnd w h Hsize s Hreach). consts. lia.
Qed.

Lemma delay_follows_level_witness :
  delay_ms (line_run 2) = INITIAL_DELAY_MS - 10 * (level (line_run 2) - 1).
Proof.
  destruct (delay_follows_level rnd_line 30 20 (line_run 2)) as (Hd & _).
  - reflexivity.
  - apply reachable_line_run. evaluate.
  - exact Hd.
Defined.

(** X4: the [int]s the engine stores stay small on every grid at least 10
    wide and 5 high, whatever its number of cells: in every reachable state
    the score is at most 5950, the length between 4 and 599, the level
    between 1 and 16, the delay between 50 and 200, and the coordinates of
    the fruit and of every segment are within the grid. *)
Theorem engine_ints_bounded (rnd : nat -> N) (w h : Z) (s : State) :
  10 <= w -> 5 <= h ->
  reachable rnd w h s ->
  0 <= score s <= 5950 /\
  4 <= snake_len s <= 599 /\
  1 <= level s <= 16 /\
  50 <= delay_ms s <= 200 /\
  width s = w /\ height s = h /\
  Forall (fun p => 0 <= px p < w /\ 0 <= py p < h) (fruit s :: segments s).
Proof.
  intros Hw Hh Hreach.
  pose proof (reachable_inv_grid rnd w h (conj Hw Hh) s Hreach) as Hinv.
  pose proof (inv_in_grid _ _ _ Hinv) as Hsegs.
  pose proof (inv_fruit _ _ _ Hinv) as Hfruit.
  destruct Hinv.
  repeat (split; [consts; lia|]).
  constructor; [exact Hfruit|exact Hsegs].
Qed.

Lemma engine_ints_bounded_witness :
  0 <= score (tour_run 46) <= 5950 /\ 4 <= snake_len (tour_run 46) <= 599.
Proof.
  destruct (engine_ints_bounded rnd_tour 10 5 (tour_run 46)) as (Hs & Hl & _).
  - lia.
  - lia.
  - apply reachable_tour_run. evaluate.
  - auto.
Defined.

(** X5: when a running reachable state's step eats the fruit, the level
    rises by one and the delay drops by ten exactly if the new length is a
    multiple of 3 and the delay is above [MIN_DELAY_MS]; with [k] fruits
    eaten so far, this one included, that is [k mod 3 = 2]. *)
Theorem eating_speeds_up (rnd : nat -> N) (w h : Z) (s : State) :
  accepted w h = true ->
  reachable rnd w h s ->
  game_over s = 0 ->
  ~ collides s ->
  new_head s = fruit s ->
  exists alive s',
    step_snake rnd s = Ok (alive, s') /\
    let k := snake_len s' - STARTING_LENGTH in
    10 * k = score s' /\
    (level s', delay_ms s')
    = if (k mod 3 =? 2) && (MIN_DELAY_MS <? delay_ms s)
      then (level s + 1, delay_ms s - 10)
      else (level s, delay_ms s).
Proof.
  intros Hsize Hreach Hrun Hfree Hfruit.
  pose proof (reachable_inv rnd w h Hsize s Hreach) as Hinv.
  destruct (inv_step_snake rnd w h Hsize s Hinv Hrun)
    as (alive & s' & Hstep & _ & Hinv').
  exists alive, s'. split; [exact Hstep|].
  assert (Hscore : score (after_step alive s') = score s').
  { unfold after_step. destruct (alive =? 0); reflexivity. }
  assert (Hlen' : snake_len (after_step alive s') = snake_len s').
  { unfold after_step. destruct (alive =? 0); reflexivity. }
  pose proof (inv_score _ _ _ Hinv') as Hsc. rewrite Hscore, Hlen' in Hsc.
  cbv zeta. split; [lia|].
  pose proof (inv_len_alive _ _ _ Hinv Hrun) as Hmax.
  pose proof (inv_len_min _ _ _ Hinv) as Hmin.
  pose proof (inv_buffer _ _ _ Hinv) as Hbuf.
  rewrite step_snake_spec in Hstep by (auto; consts; lia).
  unfold collides in Hfree.
  destruct (hits_wall s (new_head s)); [tauto|].
  destruct (bool_decide (new_head s ∈ segments s)) eqn:Hself.
  { apply bool_decide_eq_true in Hself. tauto. }
  replace (point_equal (new_head s) (fruit s)) with true in Hstep
    by (symmetry; apply point_equal_true; exact Hfruit).
  destruct (place_fruit_spec rnd (grown s)) as (j & _ & Hplace & _).
  { apply buffer_ok_grown; [assumption|consts; lia]. }
  rewrite Hplace in Hstep. cbn [bind] in Hstep.
  assert (Hs' : s' = speed_up (placed rnd (grown s) j)).
  { unfold finish_eating in Hstep.
    destruct (MAX_SNAKE - 1 <=? _); injection Hstep as _ <-; reflexivity. }
  rewrite Hs'.
  destruct (speed_up_frame (placed rnd (grown s) j)) as (_ & _ & _ & -> & _).
  unfold speed_up.
  change (snake_len (placed rnd (grown s) j)) with (snake_len s + 1).
  change (delay_ms (placed rnd (grown s) j)) with (delay_ms s).
  change (level (placed rnd (grown s) j)) with (level s).
  replace (Z.rem (snake_len s + 1) 3 =? 0)
    with ((snake_len s + 1 - STARTING_LENGTH) mod 3 =? 2).
  - destruct (_ && _); reflexivity.
  - rewrite Z.rem_mod_nonneg by (consts; lia).
    set (n := snake_len s + 1).
    pose proof (Z.div_mod n 3 ltac:(lia)) as Hn.
    pose proof (Z.mod_pos_bound n 3 ltac:(lia)) as Hn'.
    pose proof (Z.div_mod (n - STARTING_LENGTH) 3 ltac:(lia)) as Hk.
    pose proof (Z.mod_pos_bound (n - STARTING_LENGTH) 3 ltac:(lia)) as Hk'.
    destruct (Z.eqb_spec ((n - STARTING_LENGTH) mod 3) 2);
      destruct (Z.eqb_spec (n mod 3) 0); try reflexivity; consts; lia.
Qed.

Lemma eating_speeds_up_witness :
  exists alive s',
    step_snake rnd_line (line_run 1) = Ok (alive, s') /\
    (level s', delay_ms s') = (level (line_run 1) + 1, delay_ms (line_run 1) - 10).
Proof.
  destruct (eating_speeds_up rnd_line 30 20 (line_run 1))
    as (alive & s' & Hstep & _ & Hspeed).
  - reflexivity.
  - apply reachable_line_run. evaluate.
  - evaluate.
  - intros [H|H]; [vm_compute in H; discriminate H|].
    revert H. by_evaluation.
  - evaluate.
  - exists alive, s'. split; [exact Hstep|].
    assert (Hlen : snake_len s' = 6).
    { vm_compute in Hstep. injection Hstep as _ <-. reflexivity. }
    rewrite Hlen in Hspeed. exact Hspeed.
Defined.

(** ** Fruit placement, initialisation, the shift *)

(** X6: called with a sound buffer on a grid with cells, [place_fruit]
    returns; it changes the fruit and the position in the [rand()] stream
    and nothing else, leaves the fruit on a cell of the grid, and has
    drawn two numbers per round, in at least one and at most 10001 rounds. *)
Theorem place_fruit_effect (rnd : nat -> N) (s : State) :
  buffer_ok s -> 0 < width s -> 0 < height s ->
  exists (k : nat) (s' : State),
    place_fruit rnd s = Ok s' /\
    s' = set_fruit (fruit s') (set_rand_next (rand_next s') s) /\
    in_grid (width s) (height s) (fruit s') /\
    rand_next s' = (rand_next s + 2 * (k + 1))%nat /\
    Z.of_nat k <= MAX_TRIES.
Proof.
  intros Hok Hw Hh.
  destruct (place_fruit_spec rnd s Hok) as (k & Hk & Hrun & _).
  exists k, (placed rnd s k). split; [exact Hrun|].
  split; [reflexivity|]. split; [apply sample_in_grid; assumption|].
  split; [reflexivity|]. exact Hk.
Qed.

Lemma place_fruit_effect_witness :
  exists (k : nat) (s' : State),
    place_fruit rnd_two start_small = Ok s' /\
    in_grid 10 5 (fruit s') /\
    rand_next s' = (rand_next start_small + 2 * (k + 1))%nat.
Proof.
  destruct (place_fruit_effect rnd_two start_small)
    as (k & s' & Hrun & _ & Hgrid & Hnext & _).
  - split; [evaluate|].
    assert (Hlen : snake_len start_small = 4) by evaluate.
    rewrite Hlen. consts. lia.
  - evaluate.
  - evaluate.
  - exists k, s'. split; [exact Hrun|]. split; [|exact Hnext].
    assert (Hw : width start_small = 10) by evaluate.
    assert (Hh : height start_small = 5) by evaluate.
    rewrite Hw, Hh in Hgrid. exact Hgrid.
Defined.

(** X7: whatever the globals held before (a finished game, say),
    [init_game] on an accepted grid returns and leaves a fresh session:
    four segments from the centre [(width/2, height/2)] to the left, heading
    right, score 0, level 1, the initial delay, the game running, and the
    session invariant in force. *)
Theorem init_game_fresh_session (rnd : nat -> N) (s : State) :
  length (snake s) = Z.to_nat MAX_SNAKE ->
  accepted (width s) (height s) = true ->
  exists s',
    init_game rnd s = Ok s' /\
    inv (width s) (height s) s' /\
    segments s' = [mkPoint (Z.quot (width s) 2) (Z.quot (height s) 2);
                   mkPoint (Z.quot (width s) 2 - 1) (Z.quot (height s) 2);
                   mkPoint (Z.quot (width s) 2 - 2) (Z.quot (height s) 2);
                   mkPoint (Z.quot (width s) 2 - 3) (Z.quot (height s) 2)] /\
    dir s' = RIGHT /\ score s' = 0 /\ level s' = 1 /\
    delay_ms s' = INITIAL_DELAY_MS /\ snake_len s' = STARTING_LENGTH /\
    game_over s' = 0.
Proof.
  intros Hbuf Hsize. apply accepted_true in Hsize.
  set (w := width s) in *. set (h := height s) in *.
  unfold init_game.
  destruct (lay_snake_start (Z.quot w 2) (Z.quot h 2) (snake s) Hbuf)
    as (buf & Hlay & Hlen & Hseg).
  cbn [width height snake snake_len set_score set_level set_delay_ms
       set_snake_len].
  fold w h. rewrite Hlay. cbn [bind].
  set (s0 := set_dir RIGHT _).
  assert (Hok : buffer_ok s0).
  { split; [exact Hlen|]. simpl. consts. lia. }
  destruct (place_fruit_spec rnd s0 Hok) as (k & _ & -> & _). cbn [bind].
  eexists. split; [reflexivity|].
  assert (Hsegs : segments s0 = [mkPoint (Z.quot w 2) (Z.quot h 2);
                                 mkPoint (Z.quot w 2 - 1) (Z.quot h 2);
                                 mkPoint (Z.quot w 2 - 2) (Z.quot h 2);
                                 mkPoint (Z.quot w 2 - 3) (Z.quot h 2)]).
  { exact Hseg. }
  assert (Hcx : 5 <= Z.quot w 2 < w).
  { rewrite Z.quot_div_nonneg by lia. split.
    - apply Z.div_le_lower_bound; lia.
    - apply Z.div_lt_upper_bound; lia. }
  assert (Hcy : 0 <= Z.quot h 2 < h).
  { rewrite Z.quot_div_nonneg by lia. split.
    - apply Z.div_pos; lia.
    - apply Z.div_lt_upper_bound; lia. }
  split; [|split; [exact Hsegs|repeat split; reflexivity]].
  constructor; simpl; try reflexivity; try (consts; lia).
  - change (NoDup (segments s0)). rewrite Hsegs.
    repeat (apply NoDup_cons; split;
            [rewrite ?elem_of_cons, elem_of_nil; intros Hin;
             repeat destruct Hin as [Hin|Hin]; try (injection Hin; lia); exact Hin|]).
    apply NoDup_nil_2.
  - change (Forall (in_grid w h) (segments s0)). rewrite Hsegs.
    repeat constructor; simpl; lia.
  - apply (sample_in_grid rnd s0 k); simpl; fold w h; lia.
Qed.

Lemma init_game_fresh_session_witness :
  exists s',
    init_game rnd_line (tour_run 46) = Ok s' /\
    segments s' = [mkPoint 5 2; mkPoint 4 2; mkPoint 3 2; mkPoint 2 2] /\
    score s' = 0 /\ level s' = 1.
Proof.
  destruct (init_game_fresh_session rnd_line (tour_run 46))
    as (s' & Hrun & _ & Hseg & _ & Hscore & Hlevel & _).
  - evaluate.
  - evaluate.
  - exists s'. split; [exact Hrun|]. split; [|auto].
    assert (Hw : width (tour_run 46) = 10) by evaluate.
    assert (Hh : height (tour_run 46) = 5) by evaluate.
    rewrite Hw, Hh in Hseg. exact Hseg.
Defined.

(** X8: on a full-size buffer the shift loop for [n] segments, [n] below
    the capacity, returns a buffer of the same size in which slot [i + 1]
    holds what slot [i] held, for every [i < n]; slot 0 and the slots above
    [n] are as before. *)
Theorem shift_body_effect (n : nat) (buf : list Point) :
  length buf = Z.to_nat MAX_SNAKE ->
  Z.of_nat n < MAX_SNAKE ->
  exists buf',
    shift_body n (Z.of_nat n) buf = Ok buf' /\
    length buf' = length buf /\
    buf' !! 0%nat = buf !! 0%nat /\
    (forall i, (i < n)%nat -> buf' !! S i = buf !! i) /\
    (forall j, (n < j)%nat -> buf' !! j = buf !! j).
Proof.
  intros Hlen Hn. rewrite shift_body_spec by assumption.
  eexists. split; [reflexivity|].
  assert (H1 : length (take 1 buf) = 1%nat).
  { rewrite length_take. consts. lia. }
  assert (Hn' : length (take n buf) = n).
  { rewrite length_take. lia. }
  split.
  { rewrite !length_app, H1, Hn', length_drop. lia. }
  split.
  { rewrite lookup_app_l by lia. apply lookup_take_lt. lia. }
  split.
  - intros i Hi. rewrite lookup_app_r by lia. rewrite H1.
    replace (S i - 1)%nat with i by lia.
    rewrite lookup_app_l by lia. apply lookup_take_lt. exact Hi.
  - intros j Hj. rewrite lookup_app_r by lia. rewrite H1.
    rewrite lookup_app_r by lia. rewrite Hn', lookup_drop. f_equal. lia.
Qed.

Lemma shift_body_effect_witness :
  exists buf',
    shift_body 4 4 (snake start_line) = Ok buf' /\
    buf' !! 4%nat = snake start_line !! 3%nat.
Proof.
  destruct (shift_body_effect 4 (snake start_line))
    as (buf' & Hrun & _ & _ & Hup & _).
  - evaluate.
  - reflexivity.
  - exists buf'. split; [exact Hrun|]. apply Hup. lia.
Defined.

(** X9: a step without collision stays inside the buffer exactly as long
    as [snake_len] is below the capacity: with [snake_len = MAX_SNAKE] the
    shift writes [snake[MAX_SNAKE]]. *)
Theorem step_within_buffer_iff (rnd : nat -> N) (s : State) :
  buffer_ok s ->
  ~ collides s ->
  is_ok (step_snake rnd s) = true <-> snake_len s < MAX_SNAKE.
Proof.
  intros [Hbuf Hlen] Hfree. unfold collides in Hfree. split.
  - intros Hok.
    destruct (Z.eq_dec (snake_len s) MAX_SNAKE) as [Hfull|]; [|lia].
    exfalso. revert Hok. unfold step_snake.
    destruct (rd_in_range (snake s) Hbuf 0) as (p & Hp & Hrd); [consts; lia|].
    change (Z.of_nat 0) with 0 in Hrd. rewrite Hrd. cbn [bind].
    assert (Hhead : advance (dir s) p = new_head s).
    { unfold new_head, head_of. destruct (snake s); [discriminate|].
      simpl in Hp. injection Hp as ->. reflexivity. }
    rewrite Hhead.
    destruct (hits_wall s (new_head s)); [tauto|].
    rewrite (scan_spec (snake s) Hbuf _ _ 0%nat) by lia.
    cbn [bind]. rewrite drop_0, existsb_point_equal. fold (segments s).
    rewrite bool_decide_eq_false_2 by tauto.
    replace (Z.to_nat (snake_len s)) with (S (Z.to_nat (MAX_SNAKE - 1)))
      by (consts; lia).
    cbn [shift_body].
    replace (snake_len s - 1) with (Z.of_nat (Z.to_nat (MAX_SNAKE - 1)))
      by (consts; lia).
    destruct (rd_in_range (snake s) Hbuf (Z.to_nat (MAX_SNAKE - 1)))
      as (q & _ & ->); [consts; lia|].
    cbn [bind]. rewrite wr_out_of_range by lia. discriminate.
  - intros Hlt. rewrite step_snake_spec by (auto; lia).
    destruct (hits_wall s (new_head s)); [reflexivity|].
    destruct (bool_decide (new_head s ∈ segments s)); [reflexivity|].
    destruct (point_equal (new_head s) (fruit s)); [|reflexivity].
    destruct (place_fruit_spec rnd (grown s)) as (k & _ & -> & _).
    { apply buffer_ok_grown; [assumption|lia]. }
    reflexivity.
Qed.

Lemma step_within_buffer_iff_witness :
  is_ok (step_snake rnd_zero (set_snake_len MAX_SNAKE start_corner)) = true
  <-> MAX_SNAKE < MAX_SNAKE.
Proof.
  apply (step_within_buffer_iff rnd_zero (set_snake_len MAX_SNAKE start_corner)).
  - split; [evaluate|]. simpl. consts. lia.
  - intros [H|H]; [vm_compute in H; discriminate H|].
    revert H. by_evaluation.
Defined.

(** X10: a step of a running reachable state returns and leaves grid,
    direction and the game-over flag alone; the snake keeps its length or
    gains one segment, and when it keeps its length, fruit, score, level,
    delay and the position in the [rand()] stream are unchanged. *)
Theorem step_snake_frame (rnd : nat -> N) (w h : Z) (s : State) :
  accepted w h = true ->
  reachable rnd w h s ->
  game_over s = 0 ->
  exists alive s',
    step_snake rnd s = Ok (alive, s') /\
    width s' = width s /\ height s' = height s /\ dir s' = dir s /\
    game_over s' = 0 /\
    (snake_len s' = snake_len s \/ snake_len s' = snake_len s + 1) /\
    (snake_len s' = snake_len s ->
       fruit s' = fruit s /\ score s' = score s /\ level s' = level s /\
       delay_ms s' = delay_ms s /\ rand_next s' = rand_next s).
Proof.
  intros Hsize Hreach Hrun.
  pose proof (reachable_inv rnd w h Hsize s Hreach) as Hinv.
  pose proof (inv_len_alive _ _ _ Hinv Hrun) as Hmax.
  pose proof (inv_len_min _ _ _ Hinv) as Hmin.
  pose proof (inv_buffer _ _ _ Hinv) as Hbuf.
  rewrite step_snake_spec by (auto; consts; lia).
  destruct (hits_wall s (new_head s)).
  { exists 0, s. repeat split; auto. }
  destruct (bool_decide (new_head s ∈ segments s)).
  { exists 0, s. repeat split; auto. }
  destruct (point_equal (new_head s) (fruit s)).
  - destruct (place_fruit_spec rnd (grown s)) as (k & _ & -> & _).
    { apply buffer_ok_grown; [assumption|consts; lia]. }
    cbn [bind]. set (s1 := placed rnd (grown s) k).
    destruct (speed_up_frame s1) as (Hw & Hh & _ & Hlen & Hd & _ & _ & Hgo & _).
    exists (fst (finish_eating s1)), (snd (finish_eating s1)).
    split; [destruct (finish_eating s1); reflexivity|].
    assert (Hsnd : snd (finish_eating s1) = speed_up s1).
    { unfold finish_eating. destruct (_ <=? _); reflexivity. }
    rewrite Hsnd, Hw, Hh, Hlen, Hd, Hgo.
    change (snake_len s1) with (snake_len s + 1).
    repeat split; auto; lia.
  - exists 1, (moved s). repeat split; auto.
Qed.

Lemma step_snake_frame_witness :
  exists alive s',
    step_snake rnd_zero start_corner = Ok (alive, s') /\
    dir s' = dir start_corner /\ game_over s' = 0.
Proof.
  destruct (step_snake_frame rnd_zero 30 20 start_corner)
    as (alive & s' & Hstep & _ & _ & Hdir & Hgo & _).
  - reflexivity.
  - exact reachable_start_corner.
  - evaluate.
  - exists alive, s'. auto.
Defined.

(** ** Keys, turns and the loop of [main] *)

Lemma set_dir_dir (s : State) : set_dir (dir s) s = s.
Proof. destruct s; reflexivity. Qed.

Lemma change_direction_frame (d : Direction) (s : State) :
  change_direction d s = set_dir (dir (change_direction d s)) s /\
  dir (change_direction d s) <> opposite (dir s) /\
  game_over (change_direction d s) = game_over s.
Proof.
  unfold change_direction. destruct (is_reverse (dir s) d) eqn:E.
  - rewrite set_dir_dir. repeat split. destruct (dir s); discriminate.
  - repeat split. simpl. intros ->. destruct (dir s); discriminate.
Qed.

Lemma poll_input_pause (key : option Z) (s : State) :
  (fst (poll_input key s) =? chr "p") = is_pause key.
Proof.
  unfold poll_input, is_pause. destruct key as [c|]; [|reflexivity].
  set (c' := tolower c).
  repeat match goal with
         | |- context [if ?c =? ?k then _ else _] =>
             destruct (Z.eqb_spec c k) as [->|?]; [reflexivity|]
         end.
  cbn [fst]. destruct (Z.eqb_spec c' (chr "p")); [contradiction|reflexivity].
Qed.

Lemma poll_input_keeps (key : option Z) (s : State) :
  let code := fst (poll_input key s) in
  let s' := snd (poll_input key s) in
  (code = 0 \/ code = 1 \/ code = chr "q" \/ code = chr "p") /\
  s' = set_dir (dir s') s /\
  dir s' <> opposite (dir s) /\
  (code <> 1 -> s' = s).
Proof.
  cbv zeta.
  assert (Hsame : s = set_dir (dir s) s /\ dir s <> opposite (dir s)).
  { rewrite set_dir_dir. split; [reflexivity|]. destruct (dir s); discriminate. }
  unfold poll_input. destruct key as [c|].
  { repeat match goal with
           | |- context [if ?b then _ else _] => destruct b
           end; cbn [fst snd];
      first [ destruct (change_direction_frame UP s) as (? & ? & _); tauto
            | destruct (change_direction_frame DOWN s) as (? & ? & _); tauto
            | destruct (change_direction_frame LEFT s) as (? & ? & _); tauto
            | destruct (change_direction_frame RIGHT s) as (? & ? & _); tauto
            | tauto ]. }
  cbn [fst snd]. tauto.
Qed.

(** X11: whatever the key, [poll_input] returns 0, 1, ['q'] or ['p']; it
    changes no global but [dir], never turns [dir] into its reverse, and
    changes nothing at all when it returns 0, ['q'] or ['p']. *)
Theorem poll_input_frame (key : option Z) (s : State) :
  let code := fst (poll_input key s) in
  let s' := snd (poll_input key s) in
  (code = 0 \/ code = 1 \/ code = chr "q" \/ code = chr "p") /\
  s' = set_dir (dir s') s /\
  dir s' <> opposite (dir s) /\
  (code <> 1 -> s' = s).
Proof. exact (poll_input_keeps key s). Qed.

(** X12: an upper-case letter acts like its lower-case letter. *)
Theorem poll_input_ignores_case (c : Z) (s : State) :
  chr "a" <= c <= chr "z" ->
  poll_input (Some (c - 32)) s = poll_input (Some c) s.
Proof.
  intros Hc. unfold poll_input.
  assert (Hup : tolower (c - 32) = c).
  { unfold tolower.
    replace ((chr "A" <=? c - 32) && (c - 32 <=? chr "Z")) with true;
      [change (c - 32 + 32 = c); lia|].
    symmetry. apply andb_true_iff. rewrite !Z.leb_le.
    change (chr "A") with 65. change (chr "Z") with 90.
    change (chr "a") with 97 in Hc. change (chr "z") with 122 in Hc. lia. }
  assert (Hlow : tolower c = c).
  { unfold tolower.
    replace ((chr "A" <=? c) && (c <=? chr "Z")) with false; [reflexivity|].
    symmetry. apply andb_false_iff. rewrite !Z.leb_gt.
    change (chr "Z") with 90. change (chr "a") with 97 in Hc. lia. }
  rewrite Hup, Hlow. reflexivity.
Qed.

Lemma poll_input_ignores_case_witness :
  poll_input (Some (chr "W")) start_line = poll_input (Some (chr "w")) start_line.
Proof.
  apply (poll_input_ignores_case (chr "w") start_line).
  vm_compute. split; discriminate.
Defined.

Lemma advance_opposite (d : Direction) (p : Point) :
  advance (opposite d) (advance d p) = p.
Proof. destruct p as [x y], d; simpl; f_equal; lia. Qed.

(** X13: two turns between two steps undo the reversal guard.  In a
    running reachable state whose head lies one cell ahead of the second
    segment, a turn to the side followed by a turn back is accepted, leaves
    [dir] reversed, and the next step runs the head into the second segment:
    [step_snake] returns 0 and changes nothing. *)
Theorem two_turns_reverse (rnd : nat -> N) (w h : Z) (s : State)
    (side : Direction) (neck : Point) :
  accepted w h = true ->
  reachable rnd w h s ->
  game_over s = 0 ->
  side <> dir s -> side <> opposite (dir s) ->
  segments s !! 1%nat = Some neck ->
  head_of s = advance (dir s) neck ->
  let s2 := change_direction (opposite (dir s)) (change_direction side s) in
  reachable rnd w h s2 /\
  dir s2 = opposite (dir s) /\
  step_snake rnd s2 = Ok (0, s2).
Proof.
  intros Hsize Hreach Hrun Hside Hside' Hneck Hhead.
  assert (Hs1 : change_direction side s = set_dir side s).
  { unfold change_direction. destruct (dir s), side; try reflexivity;
      first [exfalso; apply Hside; reflexivity
            |exfalso; apply Hside'; reflexivity]. }
  assert (Hs2 : change_direction (opposite (dir s)) (set_dir side s)
                = set_dir (opposite (dir s)) s).
  { unfold change_direction. simpl. destruct (dir s), side; try reflexivity;
      first [exfalso; apply Hside; reflexivity
            |exfalso; apply Hside'; reflexivity]. }
  cbv zeta. split.
  { apply reach_turn.
    - apply reach_turn; assumption.
    - rewrite Hs1. exact Hrun. }
  rewrite Hs1, Hs2. split; [reflexivity|].
  pose proof (reachable_inv rnd w h Hsize s Hreach) as Hinv.
  pose proof (inv_len_alive _ _ _ Hinv Hrun) as Hmax.
  pose proof (inv_len_min _ _ _ Hinv) as Hmin.
  pose proof (inv_buffer _ _ _ Hinv) as Hbuf.
  set (s2 := set_dir (opposite (dir s)) s).
  assert (Hnew : new_head s2 = neck).
  { unfold new_head. change (head_of s2) with (head_of s).
    change (dir s2) with (opposite (dir s)).
    rewrite Hhead. apply advance_opposite. }
  rewrite step_snake_spec;
    [|exact Hbuf|change (snake_len s2) with (snake_len s); consts; lia].
  destruct (hits_wall s2 (new_head s2)); [reflexivity|].
  rewrite bool_decide_eq_true_2; [reflexivity|].
  rewrite Hnew. change (segments s2) with (segments s).
  eapply list_elem_of_lookup_2. exact Hneck.
Qed.

Lemma two_turns_reverse_witness :
  dir (change_direction LEFT (change_direction UP start_line)) = LEFT /\
  step_snake rnd_line (change_direction LEFT (change_direction UP start_line))
  = Ok (0, change_direction LEFT (change_direction UP start_line)).
Proof.
  destruct (two_turns_reverse rnd_line 30 20 start_line UP (mkPoint 14 10))
    as (_ & Hdir & Hstep).
  - reflexivity.
  - exact reachable_start_line.
  - evaluate.
  - intros H. vm_compute in H. discriminate H.
  - intros H. vm_compute in H. discriminate H.
  - evaluate.
  - evaluate.
  - split; [exact Hdir|exact Hstep].
Defined.

Lemma polled_frame (keys : list (option Z)) (s : State) :
  polled keys s = set_dir (dir (polled keys s)) s /\
  game_over (polled keys s) = game_over s.
Proof.
  revert s. induction keys as [|key keys IH]; intros s.
  - simpl. rewrite set_dir_dir. auto.
  - change (polled (key :: keys) s) with (polled keys (snd (poll_input key s))).
    destruct (IH (snd (poll_input key s))) as [Hframe Hgo].
    destruct (poll_input_keeps key s) as (_ & Hone & _).
    cbv zeta in Hone. split.
    + rewrite Hframe at 1. rewrite Hone. reflexivity.
    + rewrite Hgo, Hone. reflexivity.
Qed.

(** X14: a pause holds the game.  While control is in the pause loop of a
    running game, keys other than [p] do not step the snake: what is left
    of them is the direction they asked for; snake, fruit, score, level,
    delay and the [rand()] stream are untouched. *)
Theorem pause_holds_the_game (rnd : nat -> N) (keys rest : list (option Z))
    (s : State) :
  game_over s = 0 ->
  Forall (fun key => is_pause key = false) keys ->
  main_loop rnd (keys ++ rest) true s = main_loop rnd rest true (polled keys s) /\
  polled keys s = set_dir (dir (polled keys s)) s.
Proof.
  intros Hrun Hkeys. split; [|apply polled_frame].
  revert s Hrun. induction Hkeys as [|key keys Hkey Hkeys IH]; intros s Hrun.
  - reflexivity.
  - change (polled (key :: keys) s) with (polled keys (snd (poll_input key s))).
    rewrite <- IH.
    + cbn [app main_loop]. rewrite Hrun. cbn [Z.eqb negb].
      pose proof (poll_input_pause key s) as Hp. rewrite Hkey in Hp.
      destruct (poll_input key s) as [input s1]. cbn [fst snd] in *.
      rewrite Hp. reflexivity.
    + destruct (poll_input_keeps key s) as (_ & Hone & _).
      cbv zeta in Hone. rewrite Hone. exact Hrun.
Qed.

Lemma pause_holds_the_game_witness :
  main_loop rnd_line ([key_of UP; key_of LEFT] ++ [Some (chr "p")]) true start_line
  = main_loop rnd_line [Some (chr "p")] true
      (polled [key_of UP; key_of LEFT] start_line).
Proof.
  apply (pause_holds_the_game rnd_line [key_of UP; key_of LEFT]
           [Some (chr "p")] start_line).
  - evaluate.
  - repeat constructor.
Defined.

Lemma poll_input_inv (w h : Z) (key : option Z) (s : State) :
  inv w h s -> inv w h (snd (poll_input key s)).
Proof.
  intros Hinv.
  assert (Hturn : forall d, inv w h (change_direction d s)).
  { intros d. unfold change_direction.
    destruct (is_reverse (dir s) d); [exact Hinv|].
    destruct Hinv. constructor; assumption. }
  unfold poll_input. destruct key as [c|]; [|exact Hinv].
  repeat match goal with
         | |- context [if ?b then _ else _] => destruct b
         end; cbn [snd]; auto.
Qed.

Lemma main_loop_returns (rnd : nat -> N) (w h : Z) (keys : list (option Z)) :
  accepted w h = true ->
  forall (paused : bool) (s : State),
    inv w h s ->
    exists s', main_loop rnd keys paused s = Ok s'.
Proof.
  intros Hsize. induction keys as [|key keys IH]; intros paused s Hinv.
  - eexists. reflexivity.
  - cbn [main_loop].
    destruct (game_over s =? 0) eqn:Hgo; cbn [negb]; [|eauto].
    apply Z.eqb_eq in Hgo.
    pose proof (poll_input_inv w h key s Hinv) as Hinv1.
    assert (Hgo1 : game_over (snd (poll_input key s)) = 0).
    { destruct (poll_input_keeps key s) as (_ & Hone & _).
      cbv zeta in Hone. rewrite Hone. exact Hgo. }
    destruct (poll_input key s) as [input s1]. cbn [snd] in Hinv1, Hgo1.
    destruct (paused && negb (input =? chr "p")); [eauto|].
    destruct (negb paused && (input =? chr "q")); [eauto|].
    destruct (negb paused && (input =? chr "p")); [eauto|].
    destruct (inv_step_snake rnd w h Hsize s1 Hinv1 Hgo1)
      as (alive & s2 & -> & _ & Hinv2).
    cbn [bind fst snd]. destruct (alive =? 0); eauto.
Qed.

(** X15: a session never fails.  Whatever the command-line numbers (their
    product fitting an [int]), the [rand()] stream and the keys, [main]
    runs through them without an access outside the snake buffer and
    without a fruit placement that does not return; the state it ends in
    is reachable and has the game-over flag 0 or 1. *)
Theorem main_never_fails (rnd : nat -> N) (args : option (Z * Z))
    (keys : list (option Z)) :
  fits_int args ->
  exists s,
    main rnd args keys = Ok s /\
    reachable rnd (grid_width args) (grid_height args) s /\
    (game_over s = 0 \/ game_over s = 1).
Proof.
  intros _.
  pose proof (configure_accepted args) as Hsize.
  assert (Hrun : exists s, main rnd args keys = Ok s).
  { unfold main. rewrite configure_size.
    destruct (inv_init_game rnd _ _ Hsize) as (s0 & -> & Hinv0).
    cbn [bind]. eapply main_loop_returns; eassumption. }
  destruct Hrun as [s Hs]. exists s. split; [exact Hs|].
  pose proof (main_reachable rnd args keys s Hs) as Hreach.
  split; [exact Hreach|].
  exact (inv_flag _ _ _ (reachable_inv rnd _ _ Hsize s Hreach)).
Qed.

Lemma main_never_fails_witness :
  exists s,
    main rnd_tour (Some (10, 5)) (map key_of tour_10x5) = Ok s /\
    reachable rnd_tour 10 5 s /\
    (game_over s = 0 \/ game_over s = 1).
Proof.
  apply (main_never_fails rnd_tour (Some (10, 5)) (map key_of tour_10x5)).
  simpl. lia.
Defined.

(** X16: game over is final.  Once a run has ended with the game-over flag
    set, further keys change nothing. *)
Theorem game_over_is_final (rnd : nat -> N) (keys more : list (option Z))
    (paused : bool) (s s' : State) :
  main_loop rnd keys paused s = Ok s' ->
  game_over s' <> 0 ->
  main_loop rnd (keys ++ more) paused s = Ok s'.
Proof.
  revert paused s. induction keys as [|key keys IH]; intros paused s Hrun Hover.
  - injection Hrun as <-. destruct more as [|key more]; [reflexivity|].
    cbn [app main_loop].
    destruct (Z.eqb_spec (game_over s) 0); [contradiction|reflexivity].
  - cbn [app main_loop] in *.
    destruct (Z.eqb_spec (game_over s) 0) as [Hgo|]; cbn [negb] in *;
      [|exact Hrun].
    assert (Hgo1 : game_over (snd (poll_input key s)) = 0).
    { destruct (poll_input_keeps key s) as (_ & Hone & _).
      cbv zeta in Hone. rewrite Hone. exact Hgo. }
    destruct (poll_input key s) as [input s1]. cbn [snd] in Hgo1.
    destruct (paused && negb (input =? chr "p")); [auto|].
    destruct (negb paused && (input =? chr "q")).
    { injection Hrun as <-. contradiction. }
    destruct (negb paused && (input =? chr "p")); [auto|].
    destruct (step_snake rnd s1) as [[alive s2]| |]; try discriminate.
    cbn [bind fst snd] in *. destruct (alive =? 0); auto.
Qed.

Lemma game_over_is_final_witness :
  main_loop rnd_line ([key_of UP; key_of LEFT; key_of DOWN] ++ [None; None]) false start_line
  = Ok (state_of (main_loop rnd_line [key_of UP; key_of LEFT; key_of DOWN] false start_line)).
Proof.
  apply (game_over_is_final rnd_line [key_of UP; key_of LEFT; key_of DOWN] [None; None]
           false start_line).
  - apply is_ok_state_of. evaluate.
  - intros H. vm_compute in H. discriminate H.
Defined.

(** ** Drawing *)

Lemma draw_cell_spec (s : State) (x y : Z) :
  buffer_ok s ->
  draw_cell s x y = Ok (cell_char s (mkPoint x y)).
Proof.
  intros [Hbuf Hlen]. unfold draw_cell, cell_char.
  destruct (rd_in_range (snake s) Hbuf 0) as (p & Hp & Hrd); [consts; lia|].
  change (Z.of_nat 0) with 0 in Hrd. rewrite Hrd. cbn [bind].
  assert (Hhead : head_of s = p).
  { unfold head_of. destruct (snake s); [discriminate|].
    simpl in Hp. injection Hp as ->. reflexivity. }
  rewrite Hhead.
  destruct (point_equal (mkPoint x y) p) eqn:Ehead.
  { apply point_equal_true in Ehead. rewrite decide_True by exact Ehead.
    reflexivity. }
  rewrite decide_False
    by (intros E; apply point_equal_true in E; congruence).
  destruct (point_equal (mkPoint x y) (fruit s)) eqn:Efruit.
  { apply point_equal_true in Efruit. rewrite decide_True by exact Efruit.
    reflexivity. }
  rewrite decide_False
    by (intros E; apply point_equal_true in E; congruence).
  change (scan ?t ?b ?n 1) with (scan t b n (Z.of_nat 1)).
  rewrite (scan_spec (snake s) Hbuf) by (consts; lia).
  cbn [bind]. rewrite existsb_point_equal. f_equal.
  assert (Htail : take (Z.to_nat (snake_len s - 1)) (drop 1 (snake s))
                  = drop 1 (segments s)).
  { unfold segments. rewrite take_drop_commute.
    destruct (Z.eq_dec (snake_len s) 0) as [->|];
      [destruct (snake s); reflexivity|].
    do 2 f_equal. lia. }
  rewrite Htail.
  destruct (decide (mkPoint x y ∈ drop 1 (segments s))) as [Hin|Hin].
  - rewrite bool_decide_eq_true_2 by exact Hin. reflexivity.
  - rewrite bool_decide_eq_false_2 by exact Hin. reflexivity.
Qed.

(** X17: what a cell shows.  In every reachable state [draw_cell] returns
    for every cell, in or out of the grid: ['O'] exactly for the head's
    cell, ['F'] for the fruit's unless the head is on it, ['o'] for the
    cell of any other segment unless the fruit is on it, and a blank for a
    cell with neither segment nor fruit. *)
Theorem draw_cell_shows (rnd : nat -> N) (w h : Z) (s : State) (x y : Z) :
  accepted w h = true ->
  reachable rnd w h s ->
  let p := mkPoint x y in
  exists c,
    draw_cell s x y = Ok c /\
    (c = "O"%char <-> p = head_of s) /\
    (c = "F"%char <-> p = fruit s /\ p <> head_of s) /\
    (c = "o"%char <-> (p ∈ segments s) /\ p <> head_of s /\ p <> fruit s) /\
    (c = " "%char <-> (p ∉ segments s) /\ p <> fruit s).
Proof.
  intros Hsize Hreach p.
  pose proof (reachable_inv rnd w h Hsize s Hreach) as Hinv.
  pose proof (inv_len_max _ _ _ Hinv) as Hmax.
  pose proof (inv_len_min _ _ _ Hinv) as Hmin.
  pose proof (inv_buffer _ _ _ Hinv) as Hbuf.
  assert (Hok : buffer_ok s) by (split; [assumption|consts; lia]).
  exists (cell_char s p). split; [apply draw_cell_spec; exact Hok|].
  assert (Hsegs : segments s = head_of s :: drop 1 (segments s)).
  { unfold segments, head_of.
    destruct (Z.to_nat (snake_len s)) eqn:E; [consts; lia|].
    destruct (snake s); [discriminate|]. reflexivity. }
  assert (Hin : p ∈ segments s <-> p = head_of s \/ p ∈ drop 1 (segments s)).
  { rewrite Hsegs at 1. apply elem_of_cons. }
  unfold cell_char.
  destruct (decide (p = head_of s)) as [Eh|Eh].
  { repeat split; try discriminate; try tauto. }
  destruct (decide (p = fruit s)) as [Ef|Ef].
  { repeat split; try discriminate; try tauto. }
  destruct (decide (p ∈ drop 1 (segments s))) as [Et|Et].
  { repeat split; try discriminate; try tauto. }
  repeat split; try discriminate; try tauto.
Qed.

Lemma draw_cell_shows_witness :
  exists c,
    draw_cell start_small 2 2 = Ok c /\
    (c = "F"%char <->
       mkPoint 2 2 = fruit start_small /\ mkPoint 2 2 <> head_of start_small).
Proof.
  destruct (draw_cell_shows rnd_two 10 5 start_small 2 2)
    as (c & Hrun & _ & Hfruit & _).
  - reflexivity.
  - apply reach_init. apply is_ok_state_of. evaluate.
  - exists c. split; [exact Hrun|exact Hfruit].
Defined.

Lemma draw_cells_spec (s : State) (y : Z) (n : nat) (x0 : Z) :
  buffer_ok s ->
  exists cells,
    draw_cells s y n x0 = Ok cells /\
    length cells = n /\
    forall i, (i < n)%nat ->
      cells !! i = Some (cell_char s (mkPoint (x0 + Z.of_nat i) y)).
Proof.
  intros Hok. revert x0. induction n as [|n IH]; intros x0.
  - exists []. split; [reflexivity|]. split; [reflexivity|]. intros i Hi. lia.
  - cbn [draw_cells]. rewrite draw_cell_spec by exact Hok. cbn [bind].
    destruct (IH (x0 + 1)) as (cells & -> & Hlen & Hcells). cbn [bind].
    eexists. split; [reflexivity|]. split; [simpl; lia|].
    intros [|i] Hi.
    + simpl. rewrite Z.add_0_r. reflexivity.
    + simpl. rewrite Hcells by lia. do 3 f_equal. lia.
Qed.

Lemma draw_rows_spec (s : State) (n : nat) (y0 : Z) :
  buffer_ok s ->
  let W := Z.to_nat (width s) in
  exists rows,
    draw_rows s n y0 = Ok rows /\
    length rows = (n * (W + 3))%nat /\
    forall r, (r < n)%nat ->
      exists cells,
        take (W + 3) (drop (r * (W + 3)) rows)
        = "#"%char :: cells ++ ["#"%char; newline] /\
        length cells = W /\
        forall x, (x < W)%nat ->
          exists c,
            draw_cell s (Z.of_nat x) (y0 + Z.of_nat r) = Ok c /\
            cells !! x = Some c.
Proof.
  intros Hok W. revert y0. induction n as [|n IH]; intros y0.
  - exists []. split; [reflexivity|]. split; [reflexivity|]. intros r Hr. lia.
  - cbn [draw_rows]. fold W.
    destruct (draw_cells_spec s y0 W 0 Hok) as (cells & -> & Hlen & Hcells).
    cbn [bind].
    destruct (IH (y0 + 1)) as (rest & -> & Hrest & Hrows). cbn [bind].
    set (row := "#"%char :: cells ++ ["#"%char; newline]).
    assert (Hrow : "#"%char :: cells ++ "#"%char :: newline :: rest = row ++ rest).
    { subst row. simpl. rewrite <- app_assoc. reflexivity. }
    assert (Hrowlen : length row = (W + 3)%nat).
    { subst row. simpl. rewrite length_app. simpl. lia. }
    rewrite Hrow. eexists. split; [reflexivity|].
    split; [rewrite length_app, Hrowlen, Hrest; lia|].
    intros [|r] Hr.
    + exists cells. rewrite Nat.mul_0_l, drop_0, take_app_length' by (symmetry; exact Hrowlen).
      split; [reflexivity|]. split; [exact Hlen|].
      intros x Hx. exists (cell_char s (mkPoint (Z.of_nat x) (y0 + Z.of_nat 0))).
      split; [apply draw_cell_spec; exact Hok|].
      rewrite Hcells by exact Hx. do 2 f_equal. f_equal; lia.
    + destruct (Hrows r ltac:(lia)) as (cells' & Htake & Hlen' & Hcells').
      exists cells'.
      replace (S r * (W + 3))%nat with (length row + r * (W + 3))%nat by lia.
      rewrite drop_app_add. split; [exact Htake|]. split; [exact Hlen'|].
      intros x Hx. destruct (Hcells' x Hx) as (c & Hc & Hx').
      exists c. split; [|exact Hx'].
      rewrite <- Hc. f_equal. lia.
Qed.

(** X18: the board as drawn.  For a sound buffer the loop over the rows
    returns; it writes, for each row, ['#'], one character per column of the
    grid, the character [draw_cell] computes for that cell, then ['#'] and a
    newline. *)
Theorem draw_rows_layout (s : State) (n : nat) (y0 : Z) :
  buffer_ok s ->
  let W := Z.to_nat (width s) in
  exists rows,
    draw_rows s n y0 = Ok rows /\
    length rows = (n * (W + 3))%nat /\
    forall r, (r < n)%nat ->
      exists cells,
        take (W + 3) (drop (r * (W + 3)) rows)
        = "#"%char :: cells ++ ["#"%char; newline] /\
        length cells = W /\
        forall x, (x < W)%nat ->
          exists c,
            draw_cell s (Z.of_nat x) (y0 + Z.of_nat r) = Ok c /\
            cells !! x = Some c.
Proof. exact (draw_rows_spec s n y0). Qed.

Lemma draw_rows_layout_witness :
  exists rows,
    draw_rows start_small 5 0 = Ok rows /\
    length rows = (5 * (Z.to_nat (width start_small) + 3))%nat.
Proof.
  destruct (draw_rows_layout start_small 5 0) as (rows & Hrun & Hlen & _).
  - split; [evaluate|].
    assert (Hlen : snake_len start_small = 4) by evaluate.
    rewrite Hlen. consts. lia.
  - exists rows. split; [exact Hrun|exact Hlen].
Defined.

(** X19: in every reachable state, running or over, [draw] returns
    without reading outside the snake buffer; it writes the clear-screen
    sequence, a border of [width + 2] times ['#'], [height] rows of
    [width + 2] characters, the border again, the status line and the key
    help, each line ended by a newline. *)
Theorem draw_returns (rnd : nat -> N) (w h : Z) (s : State) :
  accepted w h = true ->
  reachable rnd w h s ->
  exists rows,
    draw s = Ok (escape :: text "[2J" ++ escape :: text "[H"
                 ++ border s ++ rows ++ border s ++ status_line s
                 ++ text "Controls: W/A/S/D to move | p = pause | q = quit"
                 ++ [newline]) /\
    length (border s) = Z.to_nat (w + 3) /\
    length rows = (Z.to_nat h * Z.to_nat (w + 3))%nat.
Proof.
  intros Hsize Hreach.
  pose proof (reachable_inv rnd w h Hsize s Hreach) as Hinv.
  pose proof (inv_len_max _ _ _ Hinv) as Hmax.
  pose proof (inv_len_min _ _ _ Hinv) as Hmin.
  pose proof (inv_buffer _ _ _ Hinv) as Hbuf.
  pose proof (inv_width _ _ _ Hinv) as Hw.
  pose proof (inv_height _ _ _ Hinv) as Hh.
  apply accepted_true in Hsize.
  assert (Hok : buffer_ok s) by (split; [assumption|consts; lia]).
  destruct (draw_rows_spec s (Z.to_nat (height s)) 0 Hok)
    as (rows & Hrun & Hlen & _).
  exists rows. unfold draw. rewrite Hrun. cbn [bind].
  split; [reflexivity|]. split.
  - unfold border. rewrite length_app, length_replicate, Hw. simpl. lia.
  - rewrite Hlen, Hw, Hh. f_equal. lia.
Qed.

Lemma draw_returns_witness :
  exists rows,
    draw (tour_run 46)
    = Ok (escape :: text "[2J" ++ escape :: text "[H"
          ++ border (tour_run 46) ++ rows ++ border (tour_run 46)
          ++ status_line (tour_run 46)
          ++ text "Controls: W/A/S/D to move | p = pause | q = quit"
          ++ [newline]) /\
    length rows = (Z.to_nat 5 * Z.to_nat (10 + 3))%nat.
Proof.
  destruct (draw_returns rnd_tour 10 5 (tour_run 46)) as (rows & Hrun & _ & Hlen).
  - reflexivity.
  - apply reachable_tour_run. evaluate.
  - exists rows. split; [exact Hrun|exact Hlen].
Defined.
